(** * Mailbox synchronisation of imap-login: model and properties

    A shallow embedding of the backend services
    - [services/imap.js]  (buildXOAuth2Token, htmlToText, fetchEmails),
    - [services/auth.js]  (refreshAccessToken),
    - [services/email.js] (fetchUserEmails, saveEmailsToDatabase,
                           getStoredEmails),
    - [controllers/emailController.js] (fetchEmails),
    over an explicit world (the two tables, the shared OAuth2 client, the
    trace of calls made to the outside) and an environment that fixes how
    the identity provider, the mail server, the MIME parser and the store
    answer. *)

From Stdlib Require Import String Ascii NArith ZArith DecimalString.
From stdpp Require Import base list.

Open Scope N_scope.

(* ===================================================================== *)
(** ** JavaScript strings *)
(* ===================================================================== *)

(** A JavaScript string is a sequence of UTF-16 code units; [length] is
    the JS [.length]. *)
Definition jsstring := list N.

(** Source literals are ASCII: one code unit per character. *)
Definition js (s : string) : jsstring :=
  (fun a => N_of_ascii a) <$> list_ascii_of_string s.
Arguments js : simpl never.

Definition jsstring_eqb (a b : jsstring) : bool := bool_decide (a = b).

(** [!s] for a string. *)
Definition falsy (s : jsstring) : bool :=
  match s with [] => true | _ => false end.

(** [!v] for a value that is a string, [null] or [undefined]. *)
Definition falsy_opt (v : option jsstring) : bool :=
  match v with None => true | Some s => falsy s end.

(** [s.substring(0, n)] for a non-negative integer [n]. *)
Definition substring0 (n : N) (s : jsstring) : jsstring :=
  take (N.to_nat n) s.

(** [parts.join(sep)]. *)
Fixpoint join (sep : jsstring) (parts : list jsstring) : jsstring :=
  match parts with
  | [] => []
  | [x] => x
  | x :: rest => x ++ sep ++ join sep rest
  end.

(** ECMAScript WhiteSpace and LineTerminator code units: the class [\s]
    and what [trim] strips. *)
Definition isLineTerminator (c : N) : bool :=
  (c =? 0x0A) || (c =? 0x0D) || (c =? 0x2028) || (c =? 0x2029).

Definition isWhiteSpace (c : N) : bool :=
  (c =? 0x09) || (c =? 0x0B) || (c =? 0x0C) || (c =? 0x20) || (c =? 0xA0)
  || (c =? 0x1680) || ((0x2000 <=? c) && (c <=? 0x200A))
  || (c =? 0x202F) || (c =? 0x205F) || (c =? 0x3000) || (c =? 0xFEFF)
  || isLineTerminator c.

Fixpoint trimStart (s : jsstring) : jsstring :=
  match s with
  | c :: rest => if isWhiteSpace c then trimStart rest else s
  | [] => []
  end.

Definition trim (s : jsstring) : jsstring :=
  rev (trimStart (rev (trimStart s))).

(* ===================================================================== *)
(** ** Buffer.from(s).toString('base64') *)
(* ===================================================================== *)

Definition isHighSurrogate (c : N) : bool := (0xD800 <=? c) && (c <? 0xDC00).
Definition isLowSurrogate (c : N) : bool := (0xDC00 <=? c) && (c <? 0xE000).

(** UTF-8 bytes of one code point. *)
Definition utf8_codepoint (cp : N) : list N :=
  if cp <? 0x80 then [cp]
  else if cp <? 0x800 then
    [N.lor 0xC0 (N.shiftr cp 6); N.lor 0x80 (N.land cp 0x3F)]
  else if cp <? 0x10000 then
    [N.lor 0xE0 (N.shiftr cp 12);
     N.lor 0x80 (N.land (N.shiftr cp 6) 0x3F);
     N.lor 0x80 (N.land cp 0x3F)]
  else
    [N.lor 0xF0 (N.shiftr cp 18);
     N.lor 0x80 (N.land (N.shiftr cp 12) 0x3F);
     N.lor 0x80 (N.land (N.shiftr cp 6) 0x3F);
     N.lor 0x80 (N.land cp 0x3F)].

(** U+FFFD, which [Buffer.from] writes for an unpaired surrogate. *)
Definition utf8_replacement : list N := [0xEF; 0xBF; 0xBD].

(** [Buffer.from(s)] (default encoding utf8): the bytes of the string. *)
Fixpoint Buffer_from (s : jsstring) : list N :=
  match s with
  | [] => []
  | c :: rest =>
      if isHighSurrogate c then
        match rest with
        | d :: rest' =>
            if isLowSurrogate d then
              utf8_codepoint
                (0x10000 + N.shiftl (c - 0xD800) 10 + (d - 0xDC00))
              ++ Buffer_from rest'
            else utf8_replacement ++ Buffer_from rest
        | [] => utf8_replacement
        end
      else if isLowSurrogate c then utf8_replacement ++ Buffer_from rest
      else utf8_codepoint c ++ Buffer_from rest
  end.

(** The base64 alphabet: A-Z a-z 0-9 + / *)
Definition base64_char (i : N) : N :=
  if i <? 26 then 65 + i
  else if i <? 52 then 97 + (i - 26)
  else if i <? 62 then 48 + (i - 52)
  else if i =? 62 then 43
  else 47.

(** [buf.toString('base64')]: three bytes give four characters, the tail
    is padded with '='. *)
Fixpoint toString_base64 (bytes : list N) : jsstring :=
  match bytes with
  | [] => []
  | [a] =>
      [base64_char (N.shiftr a 2);
       base64_char (N.shiftl (N.land a 3) 4);
       61; 61]
  | [a; b] =>
      [base64_char (N.shiftr a 2);
       base64_char (N.lor (N.shiftl (N.land a 3) 4) (N.shiftr b 4));
       base64_char (N.shiftl (N.land b 15) 2);
       61]
  | a :: b :: c :: rest =>
      [base64_char (N.shiftr a 2);
       base64_char (N.lor (N.shiftl (N.land a 3) 4) (N.shiftr b 4));
       base64_char (N.lor (N.shiftl (N.land b 15) 2) (N.shiftr c 6));
       base64_char (N.land c 63)]
      ++ toString_base64 rest
  end.

(** The value of a character of the alphabet. *)
Definition base64_index (c : N) : option N :=
  if (65 <=? c) && (c <=? 90) then Some (c - 65)
  else if (97 <=? c) && (c <=? 122) then Some (c - 71)
  else if (48 <=? c) && (c <=? 57) then Some (c + 4)
  else if c =? 43 then Some 62
  else if c =? 47 then Some 63
  else None.

(** RFC 4648 decoding, which the mail server applies to the credential:
    four characters give three bytes, '=' marks a short tail. *)
Fixpoint base64_decode (s : jsstring) : option (list N) :=
  match s with
  | [] => Some []
  | a :: b :: c :: d :: rest =>
      match base64_index a, base64_index b with
      | Some x, Some y =>
          let b0 := N.lor (N.shiftl x 2) (N.shiftr y 4) in
          if (c =? 61) && (d =? 61) then
            match rest with [] => Some [b0] | _ => None end
          else
            match base64_index c with
            | Some z =>
                let b1 := N.lor (N.shiftl (N.land y 15) 4) (N.shiftr z 2) in
                if d =? 61 then
                  match rest with [] => Some [b0; b1] | _ => None end
                else
                  match base64_index d with
                  | Some u =>
                      let b2 := N.lor (N.shiftl (N.land z 3) 6) u in
                      (fun tail => b0 :: b1 :: b2 :: tail) <$> base64_decode rest
                  | None => None
                  end
            | None => None
            end
      | _, _ => None
      end
  | _ => None
  end.

(** The numbers below [n], to check a property of bytes case by case. *)
Definition below (n : N) : list N := (fun i => N.of_nat i) <$> seq 0 (N.to_nat n).

Definition isByte (b : N) : Prop := b < 256.
Definition isCodeUnit (c : N) : Prop := c < 65536.

(* ===================================================================== *)
(** ** services/imap.js: buildXOAuth2Token, htmlToText *)
(* ===================================================================== *)

(** [buildXOAuth2Token(email, accessToken)] *)
Definition buildXOAuth2Token (email accessToken : jsstring) : jsstring :=
  let authString :=
    join [0x01]
      [ js "user=" ++ email;
        js "auth=Bearer " ++ accessToken;
        [];
        [] ] in
  toString_base64 (Buffer_from authString).

(** [s.replace(re, repl)] for a global regular expression that never
    matches the empty string: [matchLength s] is the length of the match
    of [re] anchored at the start of [s], if there is one.  The scan goes
    left to right and resumes after each match; [skip] counts the code
    units of the current match still to be dropped. *)
Fixpoint replaceAll (matchLength : jsstring -> option nat) (repl : jsstring)
    (skip : nat) (s : jsstring) : jsstring :=
  match s with
  | [] => []
  | c :: rest =>
      match skip with
      | S k => replaceAll matchLength repl k rest
      | O =>
          match matchLength s with
          | Some (S n) => repl ++ replaceAll matchLength repl n rest
          | _ => c :: replaceAll matchLength repl O rest
          end
      end
  end.

Fixpoint startsWith (prefix s : jsstring) : bool :=
  match prefix, s with
  | [], _ => true
  | p :: prefix', c :: s' => (p =? c) && startsWith prefix' s'
  | _ :: _, [] => false
  end.

(** Index of the first code unit satisfying [p]. *)
Fixpoint findIndex (p : N -> bool) (s : jsstring) : option nat :=
  match s with
  | [] => None
  | c :: rest => if p c then Some O else S <$> findIndex p rest
  end.

(** Index of the last occurrence of [needle] in [s]. *)
Fixpoint lastIndexOf (needle s : jsstring) : option nat :=
  match s with
  | [] => if startsWith needle [] then Some O else None
  | _ :: rest =>
      match lastIndexOf needle rest with
      | Some i => Some (S i)
      | None => if startsWith needle s then Some O else None
      end
  end.

(** The prefix of [s] that [.*] can cover: up to the first line
    terminator. *)
Fixpoint dotStar (s : jsstring) : jsstring :=
  match s with
  | [] => []
  | c :: rest => if isLineTerminator c then [] else c :: dotStar rest
  end.

(** [/<tag[^>]*>.*<\/tag>/]: after the opening name, [[^>]*>] runs to the
    first '>', and the greedy [.*] ends at the last closing tag of that
    line. *)
Definition matchElement (tag : string) (s : jsstring) : option nat :=
  let opening := js "<" ++ js tag in
  let closing := js "</" ++ js tag ++ js ">" in
  if startsWith opening s then
    let r := drop (length opening) s in
    match findIndex (fun c => c =? 62) r with
    | None => None
    | Some k =>
        match lastIndexOf closing (dotStar (drop (S k) r)) with
        | None => None
        | Some p => Some (length opening + S k + p + length closing)%nat
        end
    end
  else None.

(** [/<[^>]+>/]: '<', at least one code unit other than '>', then '>'. *)
Definition matchTag (s : jsstring) : option nat :=
  match s with
  | 60 :: r =>
      match findIndex (fun c => c =? 62) r with
      | Some (S k) => Some (S (S (S k)))
      | _ => None
      end
  | _ => None
  end.

(** [/\s+/]: a maximal run of white space. *)
Fixpoint matchSpaces (s : jsstring) : option nat :=
  match s with
  | c :: rest =>
      if isWhiteSpace c then
        match matchSpaces rest with
        | Some n => Some (S n)
        | None => Some 1%nat
        end
      else None
  | [] => None
  end.

(** [htmlToText(html)]; [None] is an absent ([undefined]/[false]) html. *)
Definition htmlToText (html : option jsstring) : jsstring :=
  if falsy_opt html then []
  else
    let html := default [] html in
    trim
      (replaceAll matchSpaces (js " ") O
        (replaceAll matchTag (js " ") O
          (replaceAll (matchElement "script") [] O
            (replaceAll (matchElement "style") [] O html)))).

(* ===================================================================== *)
(** ** Data model *)
(* ===================================================================== *)

(** models/user.js: a row of the users table (the [id] column is the one
    Sequelize adds; [accessToken] and [refreshToken] are nullable TEXT). *)
Record User := {
  user_id : N;
  user_email : jsstring;
  accessToken : option jsstring;
  refreshToken : option jsstring
}.

(** A [Date]: the current time ([new Date()]) or the date a string
    denotes ([new Date(s)]). *)
Inductive JsDate :=
| DateNow
| DateOf (s : jsstring).

(** The object [emailData] built for one message.  [hasAttachments] is
    [None] when the expression that fills it evaluates to [undefined]. *)
Record EmailData := {
  messageId : N;
  from : jsstring;
  subject : jsstring;
  date : JsDate;
  body : jsstring;
  bodyHtml : jsstring;
  hasAttachments : option bool
}.

(** models/email.js: a row of the emails table, [{ ...email, userId }]. *)
Record EmailRow := {
  row_userId : N;
  row_email : EmailData
}.

(** What imap-simple hands over for one message. *)
Inductive PartBody :=
| BodyAbsent
| BodyText (s : jsstring)
| BodyHeader (hfrom hsubject hdate : list jsstring).

Record Part := {
  which : jsstring;
  part_body : PartBody
}.

Record Attributes := { uid : N }.

(** [None] stands for a property that is missing on the object. *)
Record Message := {
  attributes : option Attributes;
  parts : option (list Part)
}.

(** mailparser's result. *)
Record Attachment := { filename : jsstring }.

Record ParsedMail := {
  text : option jsstring;
  html : option jsstring;
  attachments : option (list Attachment)
}.

(** google-auth-library's client. *)
Record Credentials := {
  access_token : option jsstring;
  refresh_token : option jsstring
}.

Inductive TokenResponse :=
| RespNothing
| RespString (s : jsstring)
| RespObject (token : option jsstring).

(** The [imap] block of the configuration passed to [imaps.connect]. *)
Record ImapConfig := {
  cfg_user : jsstring;
  cfg_xoauth2 : jsstring;
  cfg_host : jsstring;
  cfg_port : N;
  cfg_tls : bool;
  cfg_authTimeout : N;
  cfg_rejectUnauthorized : bool;
  cfg_minVersion : jsstring;
  cfg_connTimeout : N;
  cfg_keepalive_interval : N;
  cfg_keepalive_idleInterval : N;
  cfg_keepalive_forceNoop : bool
}.

Record FetchOptions := {
  bodies : list jsstring;
  struct : bool;
  markSeen : bool
}.

(** Sequelize [where] objects, as far as the services build them. *)
Inductive Field := FFrom | FSubject.

#[warning="-register-all"]
Inductive Where :=
| WUserId (userId : N)
| WLike (f : Field) (pattern : jsstring)
| WAnd (conds : list Where)
| WOr (conds : list Where).

Inductive SortBy := SortDate | SortFrom | SortSubject.
Inductive SortOrder := ASC | DESC | asc | desc.

(* ===================================================================== *)
(** ** Results, trace, world *)
(* ===================================================================== *)

(** A call returns or throws; an [Error] is identified by its message. *)
Inductive Res (A : Type) :=
| Ok (a : A)
| Throw (message : jsstring).
Arguments Ok {A} a.
Arguments Throw {A} message.

Inductive Level := info | warn | error.

Inductive MetaVal :=
| MStr (s : jsstring)
| MNum (n : N).

(** Calls to the store. *)
Inductive DbOp :=
| UserFindOne (email : jsstring)
| UserUpdate (id : N) (accessToken : jsstring)
| EmailFindOrCreate (userId messageId : N)
| EmailCount (w : Where)
| EmailFindAll (w : Where) (sortBy : SortBy) (order : SortOrder)
    (limit offset : N).

(** Everything a service does to the outside, in order. *)
Inductive Event :=
| EvLog (level : Level) (msg : jsstring) (meta : list (string * MetaVal))
| EvDb (op : DbOp)
| EvSetCredentials (c : Credentials)
| EvGetAccessToken (c : Credentials)
| EvImapConnect (cfg : ImapConfig)
| EvImapOpenBox (box : jsstring)
| EvImapSearch (criteria : list jsstring) (options : FetchOptions)
| EvImapEnd.

(** A call that leaves the process for the identity provider or the mail
    server. *)
Definition isNetworkCall (e : Event) : bool :=
  match e with
  | EvGetAccessToken _ | EvImapConnect _ | EvImapOpenBox _
  | EvImapSearch _ _ | EvImapEnd => true
  | _ => false
  end.

Definition isProviderCall (e : Event) : bool :=
  match e with EvGetAccessToken _ => true | _ => false end.

Definition isUserUpdate (e : Event) : bool :=
  match e with EvDb (UserUpdate _ _) => true | _ => false end.

Record World := {
  users : list User;
  emails : list EmailRow;
  db_clock : nat;
  client_credentials : Credentials;
  trace : list Event
}.

(** An open mail-server session: how it answers each method. *)
Record Connection := {
  conn_openBox : jsstring -> Res unit;
  conn_search : list jsstring -> FetchOptions -> Res (list Message);
  conn_end : Res unit
}.

(** How the collaborators answer.  [db_fault k] is the error with which
    the store rejects its write call number [k], if it does; queries are
    answered from the tables.  [db_like] and [db_sort] are the store's
    LIKE and ORDER BY. *)
Record Env := {
  db_fault : nat -> option jsstring;
  db_like : jsstring -> jsstring -> bool;
  db_sort : SortBy -> SortOrder -> list EmailRow -> list EmailRow;
  oauth_getAccessToken : Credentials -> Res TokenResponse;
  imaps_connect : ImapConfig -> Res Connection;
  simpleParser : PartBody -> Res ParsedMail;
  NODE_ENV : option jsstring
}.

(** An async function over the world. *)
Definition M (A : Type) : Type := World -> Res A * World.

Definition ret {A} (a : A) : M A := fun w => (Ok a, w).

Definition throw {A} (message : jsstring) : M A := fun w => (Throw message, w).

Definition bind {A B} (m : M A) (k : A -> M B) : M B :=
  fun w =>
    match m w with
    | (Ok a, w') => k a w'
    | (Throw e, w') => (Throw e, w')
    end.

(** [try { m } catch (e) { handler e }] *)
Definition try_catch {A} (m : M A) (handler : jsstring -> M A) : M A :=
  fun w =>
    match m w with
    | (Ok a, w') => (Ok a, w')
    | (Throw e, w') => handler e w'
    end.

Declare Scope js_scope.
Delimit Scope js_scope with js.
Notation "x <- c1 ;; c2" := (bind c1 (fun x => c2))
  (at level 100, c1 at next level, right associativity) : js_scope.
Notation "c1 ;; c2" := (bind c1 (fun _ => c2))
  (at level 100, right associativity) : js_scope.
Open Scope js_scope.

Definition emit (e : Event) (w : World) : World :=
  {| users := users w; emails := emails w; db_clock := db_clock w;
     client_credentials := client_credentials w;
     trace := trace w ++ [e] |}.

Definition tick (w : World) : World :=
  {| users := users w; emails := emails w; db_clock := S (db_clock w);
     client_credentials := client_credentials w; trace := trace w |}.

Definition set_users (us : list User) (w : World) : World :=
  {| users := us; emails := emails w; db_clock := db_clock w;
     client_credentials := client_credentials w; trace := trace w |}.

Definition set_emails (es : list EmailRow) (w : World) : World :=
  {| users := users w; emails := es; db_clock := db_clock w;
     client_credentials := client_credentials w; trace := trace w |}.

Definition set_credentials (c : Credentials) (w : World) : World :=
  {| users := users w; emails := emails w; db_clock := db_clock w;
     client_credentials := c; trace := trace w |}.

(** utils/logger.js *)
Definition logger (level : Level) (msg : jsstring)
    (meta : list (string * MetaVal)) : M unit :=
  fun w => (Ok tt, emit (EvLog level msg meta) w).

(** A number inside a template literal. *)
Definition toDecimal (n : nat) : jsstring :=
  js (NilZero.string_of_uint (Nat.to_uint n)).

(* ===================================================================== *)
(** ** The store (Sequelize models User and Email) *)
(* ===================================================================== *)

Section Services.

Variable env : Env.

(** A query: it is recorded and answered from the tables. *)
Definition db_read {A} (op : DbOp) (run : World -> A) : M A :=
  fun w => (Ok (run w), emit (EvDb op) w).

(** A call that may write: it is recorded, takes its number from the
    clock, and either is rejected with the scheduled error or runs. *)
Definition db_write {A} (op : DbOp) (run : World -> A * World) : M A :=
  fun w =>
    let w1 := tick (emit (EvDb op) w) in
    match db_fault env (db_clock w) with
    | Some message => (Throw message, w1)
    | None => let (a, w2) := run w1 in (Ok a, w2)
    end.

(** [User.findOne({ where: { email } })]: the first row with exactly this
    address. *)
Definition User_findOne (email : jsstring) : M (option User) :=
  db_read (UserFindOne email)
    (fun w => List.find (fun u => jsstring_eqb (user_email u) email) (users w)).

Definition setAccessToken (token : jsstring) (u : User) : User :=
  {| user_id := user_id u; user_email := user_email u;
     accessToken := Some token; refreshToken := refreshToken u |}.

(** [user.update({ accessToken })]: the row with this user's id.  (The
    instance in memory is refreshed too; no caller reads it again.) *)
Definition user_update (user : User) (token : jsstring) : M unit :=
  db_write (UserUpdate (user_id user) token)
    (fun w =>
       (tt, set_users
              ((fun u => if user_id u =? user_id user
                         then setAccessToken token u else u) <$> users w) w)).

Definition hasKey (userId mid : N) (r : EmailRow) : bool :=
  (row_userId r =? userId) && (messageId (row_email r) =? mid).

(** [Email.findOrCreate({ where: { userId, messageId }, defaults })]:
    the instance and whether it was created. *)
Definition Email_findOrCreate (userId : N) (email : EmailData)
    : M (EmailRow * bool) :=
  db_write (EmailFindOrCreate userId (messageId email))
    (fun w =>
       match List.find (hasKey userId (messageId email)) (emails w) with
       | Some instance => ((instance, false), w)
       | None =>
           let instance := {| row_userId := userId; row_email := email |} in
           ((instance, true), set_emails (emails w ++ [instance]) w)
       end).

Definition fieldOf (f : Field) (r : EmailRow) : jsstring :=
  match f with
  | FFrom => from (row_email r)
  | FSubject => subject (row_email r)
  end.

(** Whether a row satisfies a [where] object. *)
Fixpoint satisfies (c : Where) (r : EmailRow) : bool :=
  match c with
  | WUserId userId => row_userId r =? userId
  | WLike f pattern => db_like env pattern (fieldOf f r)
  | WAnd conds => forallb (fun c' => satisfies c' r) conds
  | WOr conds => existsb (fun c' => satisfies c' r) conds
  end.

(** [Email.count({ where })] *)
Definition Email_count (c : Where) : M nat :=
  db_read (EmailCount c)
    (fun w => length (List.filter (satisfies c) (emails w))).

(** [Email.findAll({ where, order, limit, offset })] *)
Definition Email_findAll (c : Where) (sortBy : SortBy) (order : SortOrder)
    (limit offset : N) : M (list EmailRow) :=
  db_read (EmailFindAll c sortBy order limit offset)
    (fun w =>
       take (N.to_nat limit)
         (drop (N.to_nat offset)
            (db_sort env sortBy order
               (List.filter (satisfies c) (emails w))))).

(* ===================================================================== *)
(** ** services/auth.js: refreshAccessToken *)
(* ===================================================================== *)

(** [oauth2Client.setCredentials(c)]: the shared client keeps them. *)
Definition setCredentials (c : Credentials) : M unit :=
  fun w => (Ok tt, set_credentials c (emit (EvSetCredentials c) w)).

(** [oauth2Client.getAccessToken()]: the exchange with the provider. *)
Definition getAccessToken : M TokenResponse :=
  fun w =>
    (oauth_getAccessToken env (client_credentials w),
     emit (EvGetAccessToken (client_credentials w)) w).

(** [tokenResponse && tokenResponse.token ? tokenResponse.token
                                           : tokenResponse] *)
Definition freshOf (tokenResponse : TokenResponse) : TokenResponse :=
  match tokenResponse with
  | RespObject (Some t) => if falsy t then tokenResponse else RespString t
  | _ => tokenResponse
  end.

Definition errNoRefreshToken : jsstring :=
  js "No refresh token available; re-authentication required".

Definition errStringViolation : jsstring :=
  js "string violation: accessToken cannot be an array or an object".

(** [refreshAccessToken(user)].  A fresh value that is still the response
    object (its [token] was empty) differs from any stored token and goes
    to [user.update], where Sequelize's validation of a TEXT attribute
    rejects it before the store is reached. *)
Definition refreshAccessToken (user : User) : M jsstring :=
  if falsy_opt (refreshToken user) then throw errNoRefreshToken
  else
    logger info (js "Refreshing access token")
      [("email"%string, MStr (user_email user))] ;;
    setCredentials {| access_token := accessToken user;
                      refresh_token := refreshToken user |} ;;
    try_catch
      (tokenResponse <- getAccessToken ;;
       let freshAccessToken := freshOf tokenResponse in
       logger info (js "Token refreshed successfully")
         [("email"%string, MStr (user_email user))] ;;
       match freshAccessToken with
       | RespNothing => throw (js "Unable to obtain access token")
       | RespString t =>
           if falsy t then throw (js "Unable to obtain access token")
           else
             (if bool_decide (Some t = accessToken user) then ret tt
              else
                logger info (js "Persisting new access token")
                  [("email"%string, MStr (user_email user))] ;;
                user_update user t) ;;
             ret t
       | RespObject _ =>
           logger info (js "Persisting new access token")
             [("email"%string, MStr (user_email user))] ;;
           throw errStringViolation
       end)
      (fun message =>
         logger error (js "Token refresh error")
           [("email"%string, MStr (user_email user));
            ("error"%string, MStr message)] ;;
         throw (js "Failed to refresh access token: " ++ message)).

(* ===================================================================== *)
(** ** services/imap.js: fetchEmails *)
(* ===================================================================== *)

(** [list.slice(0, e)] for an integer [e]: a negative end counts from
    the back. *)
Definition slice0 {A} (l : list A) (e : Z) : list A :=
  if (e <? 0)%Z then take (Z.to_nat (Z.max (Z.of_nat (length l) + e) 0)) l
  else take (Z.to_nat e) l.

(** [parts.find((part) => part.which === name)] *)
Definition findPart (name : jsstring) (ps : list Part) : option Part :=
  List.find (fun part => jsstring_eqb (which part) name) ps.

(** Truthiness of [part && part.body]. *)
Definition truthyBody (part : option Part) : bool :=
  match part with
  | None => false
  | Some p =>
      match part_body p with
      | BodyAbsent => false
      | BodyText s => negb (falsy s)
      | BodyHeader _ _ _ => true
      end
  end.

(** [body.name?.[0]] read as a string, where [undefined] yields [""]. *)
Definition firstOf (values : list jsstring) : jsstring := default [] (head values).

Definition errReadFind : jsstring :=
  js "Cannot read properties of undefined (reading 'find')".
Definition errReadUid : jsstring :=
  js "Cannot read properties of undefined (reading 'uid')".

(** [message.parts], [message.attributes.uid]: a TypeError on a missing
    property. *)
Definition readParts (message : Message) : M (list Part) :=
  match parts message with
  | Some ps => ret ps
  | None => throw errReadFind
  end.

Definition readUid (message : Message) : M N :=
  match attributes message with
  | Some a => ret (uid a)
  | None => throw errReadUid
  end.

(** The header block of the callback. *)
Definition withHeader (header : option Part) (emailData : EmailData) : EmailData :=
  if truthyBody header then
    match part_body <$> header with
    | Some (BodyHeader hfrom hsubject hdate) =>
        {| messageId := messageId emailData;
           from := firstOf hfrom;
           subject := firstOf hsubject;
           date := if falsy (firstOf hdate) then DateNow
                   else DateOf (firstOf hdate);
           body := body emailData;
           bodyHtml := bodyHtml emailData;
           hasAttachments := hasAttachments emailData |}
    | _ =>
        {| messageId := messageId emailData;
           from := [];
           subject := [];
           date := DateNow;
           body := body emailData;
           bodyHtml := bodyHtml emailData;
           hasAttachments := hasAttachments emailData |}
    end
  else emailData.

(** The assignments made once [simpleParser] has resolved. *)
Definition withParsed (parsed : ParsedMail) (emailData : EmailData) : EmailData :=
  {| messageId := messageId emailData;
     from := from emailData;
     subject := subject emailData;
     date := date emailData;
     body :=
       if negb (falsy_opt (text parsed))
       then substring0 5000 (default [] (text parsed))
       else if negb (falsy_opt (html parsed))
       then substring0 5000 (htmlToText (html parsed))
       else body emailData;
     bodyHtml :=
       if negb (falsy_opt (html parsed))
       then substring0 10000 (default [] (html parsed))
       else bodyHtml emailData;
     hasAttachments :=
       match attachments parsed with
       | None => None
       | Some l => Some (0 <? length l)%nat
       end |}.

Definition simpleParser_call (b : PartBody) : M ParsedMail :=
  fun w => (simpleParser env b, w).

(** The callback of [limitedMessages.map]: [None] is its [null]. *)
Definition processMessage (message : Message) : M (option EmailData) :=
  try_catch
    (ps <- readParts message ;;
     let all := findPart [] ps in
     let header := findPart (js "HEADER") ps in
     id <- readUid message ;;
     let emailData :=
       {| messageId := id; from := []; subject := []; date := DateNow;
          body := []; bodyHtml := []; hasAttachments := Some false |} in
     let emailData := withHeader header emailData in
     emailData <-
       (if truthyBody all then
          try_catch
            (parsed <- simpleParser_call (default BodyAbsent (part_body <$> all)) ;;
             ret (withParsed parsed emailData))
            (fun parseErr =>
               logger warn (js "Failed to parse email body")
                 [("messageId"%string, MNum (messageId emailData));
                  ("error"%string, MStr parseErr)] ;;
               ret emailData)
        else ret emailData) ;;
     ret (Some emailData))
    (fun err =>
       id <- readUid message ;;
       logger error (js "Error processing individual email")
         [("messageId"%string, MNum id); ("error"%string, MStr err)] ;;
       ret None).

(** [await Promise.all(items.map(f))]: every callback runs; the result is
    the list of values, or the rejection of the first callback that
    threw.  (The callbacks only throw before their first [await], so the
    first in list order is the first in time; the entries they log are
    kept in list order.) *)
Fixpoint promiseAllMap {A B} (f : A -> M B) (items : list A) : M (list B) :=
  match items with
  | [] => ret []
  | x :: rest =>
      fun w =>
        let (r, w1) := f x w in
        let (rs, w2) := promiseAllMap f rest w1 in
        (match r, rs with
         | Throw e, _ => Throw e
         | Ok _, Throw e => Throw e
         | Ok v, Ok vs => Ok (v :: vs)
         end, w2)
  end.

(** [results.filter((email) => email !== null)] *)
Definition filterNotNull {A} (results : list (option A)) : list A :=
  omap id results.

Definition imapConfig (xoauth2token emailAddress : jsstring) : ImapConfig :=
  {| cfg_user := emailAddress;
     cfg_xoauth2 := xoauth2token;
     cfg_host := js "imap.gmail.com";
     cfg_port := 993;
     cfg_tls := true;
     cfg_authTimeout := 30000;
     cfg_rejectUnauthorized := bool_decide (NODE_ENV env = Some (js "production"));
     cfg_minVersion := js "TLSv1.2";
     cfg_connTimeout := 10000;
     cfg_keepalive_interval := 10000;
     cfg_keepalive_idleInterval := 300000;
     cfg_keepalive_forceNoop := true |}.

Definition connect (config : ImapConfig) : M Connection :=
  fun w => (imaps_connect env config, emit (EvImapConnect config) w).

Definition openBox (connection : Connection) (box : jsstring) : M unit :=
  fun w => (conn_openBox connection box, emit (EvImapOpenBox box) w).

Definition search (connection : Connection) (criteria : list jsstring)
    (options : FetchOptions) : M (list Message) :=
  fun w => (conn_search connection criteria options,
            emit (EvImapSearch criteria options) w).

Definition connection_end (connection : Connection) : M unit :=
  fun w => (conn_end connection, emit EvImapEnd w).

(** The [try] block from [openBox] on, where [connection] is set. *)
Definition fetchSession (connection : Connection) (emailAddress : jsstring)
    (limit : Z) : M (list EmailData) :=
  openBox connection (js "INBOX") ;;
  logger info (js "Successfully connected to Gmail IMAP")
    [("email"%string, MStr emailAddress)] ;;
  let searchCriteria := [js "ALL"] in
  let fetchOptions :=
    {| bodies := [js "HEADER"; js "TEXT"; []]; struct := true;
       markSeen := false |} in
  messages <- search connection searchCriteria fetchOptions ;;
  let limitedMessages := slice0 messages limit in
  logger info
    (js "Fetched " ++ toDecimal (length limitedMessages) ++ js " emails from IMAP")
    [("email"%string, MStr emailAddress);
     ("total"%string, MNum (N.of_nat (length messages)));
     ("limited"%string, MNum (N.of_nat (length limitedMessages)))] ;;
  results <- promiseAllMap processMessage limitedMessages ;;
  let emails := filterNotNull results in
  connection_end connection ;;
  logger info
    (js "Successfully processed " ++ toDecimal (length emails) ++ js " emails")
    [("email"%string, MStr emailAddress)] ;;
  ret emails.

(** The outer [catch]: [connection] is set once [imaps.connect] has
    resolved.  (The [stack] entry of the log line is left out.) *)
Definition fetchFailed (connection : option Connection)
    (emailAddress : jsstring) (err : jsstring) : M (list EmailData) :=
  match connection with
  | Some c =>
      try_catch (connection_end c)
        (fun closeErr =>
           logger error (js "Error closing IMAP connection")
             [("error"%string, MStr closeErr)])
  | None => ret tt
  end ;;
  logger error (js "IMAP fetch error")
    [("email"%string, MStr emailAddress); ("error"%string, MStr err)] ;;
  throw err.

(** [fetchEmails(accessToken, emailAddress, limit = 50)] *)
Definition fetchEmails (accessToken emailAddress : jsstring)
    (limit : option Z) : M (list EmailData) :=
  let limit := default 50%Z limit in
  let xoauth2token := buildXOAuth2Token emailAddress accessToken in
  let config := imapConfig xoauth2token emailAddress in
  logger info (js "Connecting to Gmail IMAP")
    [("email"%string, MStr emailAddress)] ;;
  fun w =>
    match connect config w with
    | (Throw err, w1) => fetchFailed None emailAddress err w1
    | (Ok connection, w1) =>
        try_catch (fetchSession connection emailAddress limit)
          (fetchFailed (Some connection) emailAddress) w1
    end.

(* ===================================================================== *)
(** ** services/email.js *)
(* ===================================================================== *)

(** The [for ... of] loop of [saveEmailsToDatabase]. *)
Fixpoint saveLoop (emails : list EmailData) (userId : N)
    (savedCount skippedCount : N) : M (N * N) :=
  match emails with
  | [] => ret (savedCount, skippedCount)
  | email :: rest =>
      found <- Email_findOrCreate userId email ;;
      if snd found
      then saveLoop rest userId (savedCount + 1) skippedCount
      else saveLoop rest userId savedCount (skippedCount + 1)
  end.

(** The line [saveEmailsToDatabase] logs when the loop has finished. *)
Definition savedReport (userId : N) (total : nat) (saved skipped : N) : Event :=
  EvLog info (js "Saved emails to database")
    [("userId"%string, MNum userId);
     ("total"%string, MNum (N.of_nat total));
     ("saved"%string, MNum saved);
     ("skipped"%string, MNum skipped)].

(** [saveEmailsToDatabase(emails, userId)] *)
Definition saveEmailsToDatabase (emails : list EmailData) (userId : N) : M unit :=
  try_catch
    (counts <- saveLoop emails userId 0 0 ;;
     fun w => (Ok tt, emit (savedReport userId (length emails) (fst counts) (snd counts)) w))
    (fun err =>
       logger error (js "Error saving emails to database")
         [("userId"%string, MNum userId); ("error"%string, MStr err)]).

Definition errUserNotFound : jsstring := js "User not found".
Definition errAddressRequired : jsstring := js "Email address is required".

(** [fetchUserEmails(emailAddress)]; an address that is not given reads
    as the empty string, which [!emailAddress] rejects alike. *)
Definition fetchUserEmails (emailAddress : jsstring) : M (list EmailData) :=
  if falsy emailAddress then throw errAddressRequired
  else
    found <- User_findOne emailAddress ;;
    match found with
    | None => throw errUserNotFound
    | Some user =>
        try_catch
          (freshAccessToken <- refreshAccessToken user ;;
           logger info (js "Fetching emails from IMAP")
             [("email"%string, MStr emailAddress)] ;;
           emails <- fetchEmails freshAccessToken emailAddress None ;;
           logger info (js "Successfully fetched emails")
             [("email"%string, MStr emailAddress);
              ("count"%string, MNum (N.of_nat (length emails)))] ;;
           saveEmailsToDatabase emails (user_id user) ;;
           ret emails)
          (fun err =>
             logger error (js "Error fetching emails")
               [("email"%string, MStr emailAddress); ("error"%string, MStr err)] ;;
             throw (js "Failed to fetch emails: " ++ err))
    end.

(** The options object of [getStoredEmails]; [None] is a key that is not
    given.  [page] and [limit] arrive validated as integers from 1 on. *)
Record Options := {
  opt_page : option positive;
  opt_limit : option positive;
  opt_search : option jsstring;
  opt_sortBy : option SortBy;
  opt_sortOrder : option SortOrder
}.

Record Pagination := {
  currentPage : positive;
  totalPages : N;
  totalCount : nat;
  pg_limit : positive;
  hasNextPage : bool;
  hasPrevPage : bool
}.

Record StoredEmails := {
  stored_emails : list EmailRow;
  pagination : Pagination
}.

(** [sortOrder.toUpperCase()] *)
Definition toUpperCase (o : SortOrder) : SortOrder :=
  match o with
  | ASC | asc => ASC
  | DESC | desc => DESC
  end.

(** The [where] object [getStoredEmails] builds. *)
Definition whereClause (user : User) (search : jsstring) : Where :=
  if negb (falsy search) && negb (falsy (trim search)) then
    WAnd [ WUserId (user_id user);
           WOr [ WLike FFrom (js "%" ++ search ++ js "%");
                 WLike FSubject (js "%" ++ search ++ js "%") ] ]
  else WUserId (user_id user).

(** [getStoredEmails(emailAddress, options = {})] *)
Definition getStoredEmails (emailAddress : jsstring) (options : Options)
    : M StoredEmails :=
  found <- User_findOne emailAddress ;;
  match found with
  | None => throw errUserNotFound
  | Some user =>
      let page := default 1%positive (opt_page options) in
      let limit := default 20%positive (opt_limit options) in
      let search := default [] (opt_search options) in
      let sortBy := default SortDate (opt_sortBy options) in
      let sortOrder := default DESC (opt_sortOrder options) in
      let offset := Pos.pred_N page * Npos limit in
      let whereClause := whereClause user search in
      totalCount <- Email_count whereClause ;;
      emails <- Email_findAll whereClause sortBy (toUpperCase sortOrder)
                  (Npos limit) offset ;;
      let totalPages := (N.of_nat totalCount + Npos limit - 1) / Npos limit in
      let hasNextPage := Npos page <? totalPages in
      let hasPrevPage := (1 <? page)%positive in
      logger info (js "Retrieved stored emails with pagination")
        [("email"%string, MStr emailAddress);
         ("page"%string, MNum (Npos page));
         ("limit"%string, MNum (Npos limit));
         ("search"%string, MStr search);
         ("totalCount"%string, MNum (N.of_nat totalCount));
         ("totalPages"%string, MNum totalPages)] ;;
      ret {| stored_emails := emails;
             pagination :=
               {| currentPage := page;
                  totalPages := totalPages;
                  totalCount := totalCount;
                  pg_limit := limit;
                  hasNextPage := hasNextPage;
                  hasPrevPage := hasPrevPage |} |}
  end.

End Services.

(* ===================================================================== *)
(** ** controllers/emailController.js *)
(* ===================================================================== *)

(** [s.includes(needle)] *)
Fixpoint includes (needle s : jsstring) : bool :=
  startsWith needle s ||
  match s with
  | [] => false
  | _ :: rest => includes needle rest
  end.

(** The object a handler passes to [res.json]: a failure,
    [{ success: false, message, error }], or the fetched records,
    [{ message, count, data }]. *)
Inductive Json :=
| Failure (message error : jsstring)
| Fetched (message : jsstring) (count : nat) (data : list EmailData).

(** The one call [res.status(status).json(json)] of a handler. *)
Record Response := {
  res_status : N;
  res_json : Json
}.

Module EmailController.
Section Handlers.

Variable env : Env.

(** [fetchEmails(req, res)]: [email] is [req.query.email], the result is
    the response the handler sends. *)
Definition fetchEmails (email : option jsstring) : M Response :=
  try_catch
    (if falsy_opt email then
       ret {| res_status := 400;
              res_json :=
                Failure (js "Missing email parameter")
                  (js "Email address is required in query parameters") |}
     else
       let email := default [] email in
       logger info (js "Fetching emails") [("email"%string, MStr email)] ;;
       emails <- fetchUserEmails env email ;;
       ret {| res_status := 201;
              res_json :=
                Fetched (js "Emails fetched and stored successfully")
                  (length emails) emails |})
    (fun message =>
       logger error (js "Fetch emails error")
         [("email"%string, MStr (default [] email));
          ("error"%string, MStr message)] ;;
       if includes (js "User not found") message then
         ret {| res_status := 404;
                res_json := Failure (js "User not found") message |}
       else if includes (js "re-authentication") message then
         ret {| res_status := 401;
                res_json := Failure (js "Authentication required") message |}
       else
         ret {| res_status := 500;
                res_json :=
                  Failure (js "Failed to fetch emails")
                    (if bool_decide (NODE_ENV env = Some (js "production"))
                     then js "Internal server error" else message) |}).

End Handlers.
End EmailController.

(* ===================================================================== *)
(** ** Observations on worlds and traces *)
(* ===================================================================== *)

(** Rows stored under the key (owner, message id). *)
Definition countKey (userId mid : N) (rows : list EmailRow) : nat :=
  length (List.filter (hasKey userId mid) rows).

(** The access token stored for the account with this id, if there is
    such an account. *)
Definition storedToken (id : N) (w : World) : option (option jsstring) :=
  accessToken <$> List.find (fun u => user_id u =? id) (users w).

(** The access token a provider response carries. *)
Definition tokenOf (r : TokenResponse) : option jsstring :=
  match r with
  | RespNothing => None
  | RespString s => Some s
  | RespObject token => token
  end.

(** Events that are no calls to the provider or the mail server. *)
Definition quiet (es : list Event) : Prop :=
  Forall (fun e => isNetworkCall e = false) es.

(** The world after some more events. *)
Definition appendTrace (es : list Event) (w : World) : World :=
  {| users := users w; emails := emails w; db_clock := db_clock w;
     client_credentials := client_credentials w;
     trace := trace w ++ es |}.

(** What [Promise.all] makes of settled callbacks. *)
Fixpoint collect {A} (outcomes : list (Res A)) : Res (list A) :=
  match outcomes with
  | [] => Ok []
  | r :: rest =>
      match r, collect rest with
      | Throw e, _ => Throw e
      | Ok _, Throw e => Throw e
      | Ok v, Ok vs => Ok (v :: vs)
      end
  end.

(** The options [fetchEmails] searches with. *)
Definition searchOptions : FetchOptions :=
  {| bodies := [js "HEADER"; js "TEXT"; []]; struct := true; markSeen := false |}.

Section Outcomes.

Variable env : Env.

(** The record built for a message with the given uid and parts. *)
Definition recordOf (id : N) (ps : list Part) : EmailData :=
  let emailData :=
    withHeader (findPart (js "HEADER") ps)
      {| messageId := id; from := []; subject := []; date := DateNow;
         body := []; bodyHtml := []; hasAttachments := Some false |} in
  let all := findPart [] ps in
  if truthyBody all then
    match simpleParser env (default BodyAbsent (part_body <$> all)) with
    | Ok parsed => withParsed parsed emailData
    | Throw _ => emailData
    end
  else emailData.

(** How the callback settles for a message. *)
Definition messageOutcome (message : Message) : Res (option EmailData) :=
  match attributes message, parts message with
  | None, _ => Throw errReadUid
  | Some a, None => Ok None
  | Some a, Some ps => Ok (Some (recordOf (uid a) ps))
  end.

(** The record a message contributes to the result, if any. *)
Definition keptRecord (message : Message) : option EmailData :=
  match messageOutcome message with
  | Ok r => r
  | Throw _ => None
  end.

(** How a session on an open connection ends: the first step that
    throws decides, otherwise the non-null results are returned. *)
Definition sessionResult (connection : Connection) (limit : Z)
    : Res (list EmailData) :=
  match conn_openBox connection (js "INBOX") with
  | Throw e => Throw e
  | Ok _ =>
      match conn_search connection [js "ALL"] searchOptions with
      | Throw e => Throw e
      | Ok messages =>
          match collect (messageOutcome <$> slice0 messages limit) with
          | Throw e => Throw e
          | Ok results =>
              match conn_end connection with
              | Throw e => Throw e
              | Ok _ => Ok (filterNotNull results)
              end
          end
      end
  end.

End Outcomes.

(** A message as imap-simple delivers it: attributes and parts are set. *)
Definition wellFormed (message : Message) : bool :=
  match attributes message, parts message with
  | Some _, Some _ => true
  | _, _ => false
  end.

(** The lines [fetchUserEmails] and [saveEmailsToDatabase] log. *)
Definition fetchingLine (emailAddress : jsstring) : Event :=
  EvLog info (js "Fetching emails from IMAP")
    [("email"%string, MStr emailAddress)].

Definition fetchedLine (emailAddress : jsstring) (count : nat) : Event :=
  EvLog info (js "Successfully fetched emails")
    [("email"%string, MStr emailAddress);
     ("count"%string, MNum (N.of_nat count))].

Definition cacheFailureLine (userId : N) (message : jsstring) : Event :=
  EvLog error (js "Error saving emails to database")
    [("userId"%string, MNum userId); ("error"%string, MStr message)].

(** The account stored for an address. *)
Definition storedAccount (emailAddress : jsstring) (w : World) : option User :=
  List.find (fun u => jsstring_eqb (user_email u) emailAddress) (users w).

(** The same options with another [search] key. *)
Definition withSearch (search : option jsstring) (o : Options) : Options :=
  {| opt_page := opt_page o; opt_limit := opt_limit o; opt_search := search;
     opt_sortBy := opt_sortBy o; opt_sortOrder := opt_sortOrder o |}.

(** What a session does once its connection is open: it logs, opens the
    inbox, searches all messages without marking them seen, and ends. *)
Definition sessionEvent (e : Event) : bool :=
  match e with
  | EvLog _ _ _ | EvImapEnd => true
  | EvImapOpenBox box => jsstring_eqb box (js "INBOX")
  | EvImapSearch criteria options =>
      bool_decide (criteria = [js "ALL"]) && negb (markSeen options)
  | _ => false
  end.

Definition sessionOnly (es : list Event) : Prop :=
  Forall (fun e => sessionEvent e = true) es.

Definition isStoreCall (e : Event) : bool :=
  match e with EvDb _ => true | _ => false end.

Definition isConnect (e : Event) : bool :=
  match e with EvImapConnect _ => true | _ => false end.

Definition hasAttributes (message : Message) : bool :=
  match attributes message with Some _ => true | None => false end.

(** The uid of a message that carries both attributes and parts. *)
Definition uidIfWellFormed (message : Message) : option N :=
  match attributes message, parts message with
  | Some a, Some _ => Some (uid a)
  | _, _ => None
  end.

(** No match of [/<[^>]+>/] starts anywhere in [s]. *)
Fixpoint tagFree (s : jsstring) : bool :=
  match s with
  | [] => true
  | _ :: rest =>
      match matchTag s with
      | None => tagFree rest
      | Some _ => false
      end
  end.

(** [s] does not start with white space. *)
Definition startsClean (s : jsstring) : bool :=
  match s with
  | c :: _ => negb (isWhiteSpace c)
  | [] => true
  end.

(** Every white space code unit of [s] is a space followed by none. *)
Fixpoint singleSpaced (s : jsstring) : bool :=
  match s with
  | [] => true
  | c :: rest =>
      (negb (isWhiteSpace c) || ((c =? 32) && startsClean rest))
      && singleSpaced rest
  end.

(** The line the fetch handler logs before it calls the service. *)
Definition requestLine (email : jsstring) : Event :=
  EvLog info (js "Fetching emails") [("email"%string, MStr email)].

(** The line [fetchUserEmails] logs in its [catch]. *)
Definition syncFailureLine (emailAddress message : jsstring) : Event :=
  EvLog error (js "Error fetching emails")
    [("email"%string, MStr emailAddress); ("error"%string, MStr message)].

(* ===================================================================== *)
(** ** A concrete mailbox *)
(* ===================================================================== *)

(** The account of the scenarios: [a@x.com] with tokens (at1, rt1), and
    an inbox of three messages, the second of which does not parse. *)
Definition demoAddress : jsstring := js "a@x.com".

Definition demoUser : User :=
  {| user_id := 7; user_email := demoAddress;
     accessToken := Some (js "at1"); refreshToken := Some (js "rt1") |}.

Definition demoMessage (id : N) (content : string) : Message :=
  {| attributes := Some {| uid := id |};
     parts := Some
       [ {| which := js "HEADER";
            part_body := BodyHeader [js "bob@x.com"] [js "hello"] [] |};
         {| which := []; part_body := BodyText (js content) |} ] |}.

Definition demoInbox : list Message :=
  [demoMessage 1 "one"; demoMessage 2 "bad"; demoMessage 3 "three"].

Definition demoConnection : Connection :=
  {| conn_openBox := fun _ => Ok tt;
     conn_search := fun _ _ => Ok demoInbox;
     conn_end := Ok tt |}.

Definition demoParser (b : PartBody) : Res ParsedMail :=
  match b with
  | BodyText s =>
      if bool_decide (s = js "bad") then Throw (js "boom")
      else Ok {| text := Some s; html := None; attachments := Some [] |}
  | _ => Throw (js "no input")
  end.

(** The provider answers with the token [fresh]; the store rejects the
    write calls that [fault] names. *)
Definition demoEnvWith (fresh : string) (fault : nat -> option jsstring)
    (connection : Connection) : Env :=
  {| db_fault := fault;
     db_like := fun _ _ => false;
     db_sort := fun _ _ rows => rows;
     oauth_getAccessToken := fun _ => Ok (RespObject (Some (js fresh)));
     imaps_connect := fun _ => Ok connection;
     simpleParser := demoParser;
     NODE_ENV := None |}.

Definition demoEnv : Env := demoEnvWith "at2" (fun _ => None) demoConnection.

(** The provider hands back the stored token. *)
Definition sameTokenEnv : Env :=
  demoEnvWith "at1" (fun _ => None) demoConnection.

(** The store rejects every write after the first one. *)
Definition failingStoreEnv : Env :=
  demoEnvWith "at2"
    (fun k => match k with O => None | S _ => Some (js "deadlock") end)
    demoConnection.

(** The search on the open connection fails. *)
Definition brokenSearchEnv : Env :=
  demoEnvWith "at2" (fun _ => None)
    {| conn_openBox := fun _ => Ok tt;
       conn_search := fun _ _ => Throw (js "timeout");
       conn_end := Ok tt |}.

Definition demoWorld : World :=
  {| users := [demoUser]; emails := []; db_clock := 0;
     client_credentials := {| access_token := None; refresh_token := None |};
     trace := [] |}.

Definition demoEmail : EmailData :=
  {| messageId := 1; from := js "bob@x.com"; subject := js "hello";
     date := DateNow; body := js "one"; bodyHtml := [];
     hasAttachments := Some false |}.

(** A message the server hands over without its parts, and one without
    its attributes. *)
Definition partlessMessage : Message :=
  {| attributes := Some {| uid := 4 |}; parts := None |}.

Definition bareMessage : Message :=
  {| attributes := None; parts := Some [] |}.

Definition inboxOf (messages : list Message) : Connection :=
  {| conn_openBox := fun _ => Ok tt;
     conn_search := fun _ _ => Ok messages;
     conn_end := Ok tt |}.

Definition partlessEnv : Env :=
  demoEnvWith "at2" (fun _ => None)
    (inboxOf [demoMessage 1 "one"; partlessMessage; demoMessage 3 "three"]).

Definition bareEnv : Env :=
  demoEnvWith "at2" (fun _ => None) (inboxOf [demoMessage 1 "one"; bareMessage]).


(** A second account, which has lost its refresh token. *)
Definition lapsedUser : User :=
  {| user_id := 8; user_email := js "c@x.com";
     accessToken := Some (js "at1"); refreshToken := None |}.

Definition demoRow (owner id : N) : EmailRow :=
  {| row_userId := owner;
     row_email :=
       {| messageId := id; from := js "bob@x.com"; subject := js "hello";
          date := DateNow; body := []; bodyHtml := [];
          hasAttachments := Some false |} |}.

(** Both accounts, with five cached messages of the first and one of the
    second. *)
Definition cachedWorld : World :=
  {| users := [demoUser; lapsedUser];
     emails := [demoRow 7 1; demoRow 7 2; demoRow 8 1; demoRow 7 3;
                demoRow 7 4; demoRow 7 5];
     db_clock := 0;
     client_credentials := {| access_token := None; refresh_token := None |};
     trace := [] |}.

(** Pages of two rows. *)
Definition pagesOfTwo (page : positive) : Options :=
  {| opt_page := Some page; opt_limit := Some 2%positive; opt_search := None;
     opt_sortBy := None; opt_sortOrder := None |}.

(* ===================================================================== *)
(** * Properties *)
(* ===================================================================== *)

(** ** The XOAUTH2 credential *)

(** The string the four parts join to. *)
Lemma authString_shape (email accessToken : jsstring) :
  join [0x01] [js "user=" ++ email; js "auth=Bearer " ++ accessToken; []; []]
  = js "user=" ++ (email ++ 0x01 :: (js "auth=Bearer " ++ (accessToken ++ [0x01; 0x01]))).
Proof. reflexivity. Qed.

Lemma Buffer_from_cons (c : N) (rest : jsstring) :
  Buffer_from (c :: rest)
  = if isHighSurrogate c then
      match rest with
      | d :: rest' =>
          if isLowSurrogate d then
            utf8_codepoint (0x10000 + N.shiftl (c - 0xD800) 10 + (d - 0xDC00))
            ++ Buffer_from rest'
          else utf8_replacement ++ Buffer_from rest
      | [] => utf8_replacement
      end
    else if isLowSurrogate c then utf8_replacement ++ Buffer_from rest
    else utf8_codepoint c ++ Buffer_from rest.
Proof. reflexivity. Qed.

(** Encoding the part of a string before a code unit that is not a low
    surrogate never depends on what follows it. *)
Lemma Buffer_from_app (a : jsstring) (c : N) (r : jsstring) :
  isLowSurrogate c = false ->
  Buffer_from (a ++ c :: r) = Buffer_from a ++ Buffer_from (c :: r).
Proof.
  intros Hc.
  remember (length a) as n eqn:Hn.
  revert a Hn.
  induction n as [n IH] using lt_wf_ind.
  intros [|x [|d a']] Hn.
  - reflexivity.
  - change ([x] ++ c :: r) with (x :: c :: r).
    rewrite (Buffer_from_cons x (c :: r)), (Buffer_from_cons x []), Hc.
    change (Buffer_from []) with (@nil N).
    destruct (isHighSurrogate x); [reflexivity|].
    destruct (isLowSurrogate x); now rewrite app_nil_r.
  - change ((x :: d :: a') ++ c :: r) with (x :: d :: (a' ++ c :: r)).
    assert (E1 : Buffer_from (a' ++ c :: r)
                 = Buffer_from a' ++ Buffer_from (c :: r)).
    { apply (IH (length a')); [subst n; simpl; lia | reflexivity]. }
    assert (E2 : Buffer_from (d :: a' ++ c :: r)
                 = Buffer_from (d :: a') ++ Buffer_from (c :: r)).
    { assert (Hlt : (length (d :: a') < n)%nat) by (subst n; simpl; lia).
      exact (IH _ Hlt (d :: a') eq_refl). }
    rewrite (Buffer_from_cons x (d :: a' ++ c :: r)),
            (Buffer_from_cons x (d :: a')).
    destruct (isHighSurrogate x).
    + destruct (isLowSurrogate d).
      * rewrite E1. now rewrite <- app_assoc.
      * rewrite E2. now rewrite <- app_assoc.
    + destruct (isLowSurrogate x); rewrite E2; now rewrite <- app_assoc.
Qed.

(** ASCII text is its own encoding. *)
Lemma Buffer_from_user (r : jsstring) :
  Buffer_from (js "user=" ++ r) = js "user=" ++ Buffer_from r.
Proof. reflexivity. Qed.

Lemma Buffer_from_auth (r : jsstring) :
  Buffer_from (0x01 :: js "auth=Bearer " ++ r)
  = 0x01 :: js "auth=Bearer " ++ Buffer_from r.
Proof. reflexivity. Qed.

(** The bytes of the joined string. *)
Lemma authString_bytes (email accessToken : jsstring) :
  Buffer_from
    (join [0x01] [js "user=" ++ email; js "auth=Bearer " ++ accessToken; []; []])
  = js "user=" ++ Buffer_from email ++ [0x01]
    ++ js "auth=Bearer " ++ Buffer_from accessToken ++ [0x01; 0x01].
Proof.
  rewrite authString_shape, Buffer_from_user.
  rewrite (Buffer_from_app email) by reflexivity.
  rewrite Buffer_from_auth.
  rewrite (Buffer_from_app accessToken 1 [1]) by reflexivity.
  reflexivity.
Qed.

(** C6. The credential string is the base64 text of the bytes
    [user=<addr>\x01auth=Bearer <token>\x01\x01]: the literal pieces are
    their ASCII bytes, the address and the token are their UTF-8 bytes,
    and the three separators are single bytes 0x01. *)
Theorem buildXOAuth2Token_bytes (email accessToken : jsstring) :
  buildXOAuth2Token email accessToken
  = toString_base64
      (js "user=" ++ Buffer_from email ++ [0x01]
       ++ js "auth=Bearer " ++ Buffer_from accessToken ++ [0x01; 0x01]).
Proof.
  unfold buildXOAuth2Token. cbv zeta. now rewrite authString_bytes.
Qed.

(** Checking a property case by case. *)
Lemma check_below (n : N) (P : N -> bool) :
  forallb P (below n) = true -> forall x, x < n -> P x = true.
Proof.
  intros Hall x Hx. rewrite forallb_forall in Hall. apply Hall.
  unfold below. apply List.in_map_iff. exists (N.to_nat x). split; [lia|].
  apply in_seq. lia.
Qed.

Lemma check_below2 (n m : N) (P : N -> N -> bool) :
  forallb (fun x => forallb (P x) (below m)) (below n) = true ->
  forall x y, x < n -> y < m -> P x y = true.
Proof.
  intros Hall x y Hx Hy.
  exact (check_below m (P x) (check_below n _ Hall x Hx) y Hy).
Qed.

Lemma check_below3 (n m k : N) (P : N -> N -> N -> bool) :
  forallb (fun x => forallb (fun y => forallb (P x y) (below k)) (below m))
    (below n) = true ->
  forall x y z, x < n -> y < m -> z < k -> P x y z = true.
Proof.
  intros Hall x y z Hx Hy Hz.
  exact (check_below k (P x y) (check_below2 n m _ Hall x y Hx Hy) z Hz).
Qed.

(** A sextet and its character. *)
Lemma base64_index_char (i : N) :
  i < 64 ->
  base64_index (base64_char i) = Some i /\ (base64_char i =? 61) = false.
Proof.
  intros Hi.
  pose proof (check_below 64
    (fun i => match base64_index (base64_char i) with
              | Some j => j =? i
              | None => false
              end && negb (base64_char i =? 61))
    ltac:(vm_compute; reflexivity) i Hi) as H.
  apply andb_prop in H as [H1 H2].
  destruct (base64_index (base64_char i)) as [j|]; [|discriminate].
  apply N.eqb_eq in H1 as ->.
  split; [reflexivity|]. now destruct (base64_char i =? 61).
Qed.

(** The two low bits and the two high bits of a byte. *)
Lemma byte_pieces (a : N) :
  a < 256 ->
  N.land a 3 < 4 /\ N.shiftr a 6 < 4 /\ N.shiftr a 4 < 16 /\ N.land a 15 < 16 /\
  N.shiftr a 2 < 64 /\ N.land a 63 < 64.
Proof.
  intros Ha.
  pose proof (check_below 256
    (fun a => (N.land a 3 <? 4) && (N.shiftr a 6 <? 4) && (N.shiftr a 4 <? 16)
              && (N.land a 15 <? 16) && (N.shiftr a 2 <? 64) && (N.land a 63 <? 64))
    ltac:(vm_compute; reflexivity) a Ha) as H.
  repeat (apply andb_prop in H as [H ?]).
  repeat split; now apply N.ltb_lt.
Qed.

(** The sextets, from the pieces of the bytes. *)
Lemma sextet_bounds (x h l v : N) :
  x < 4 -> h < 16 -> l < 16 -> v < 4 ->
  N.lor (N.shiftl x 4) h < 64 /\ N.shiftl x 4 < 64 /\
  N.lor (N.shiftl l 2) v < 64 /\ N.shiftl l 2 < 64.
Proof.
  intros Hx Hh Hl Hv.
  pose proof (check_below2 4 16
    (fun x h => (N.lor (N.shiftl x 4) h <? 64) && (N.shiftl x 4 <? 64))
    ltac:(vm_compute; reflexivity) x h Hx Hh) as H1.
  pose proof (check_below2 16 4
    (fun l v => (N.lor (N.shiftl l 2) v <? 64) && (N.shiftl l 2 <? 64))
    ltac:(vm_compute; reflexivity) l v Hl Hv) as H2.
  apply andb_prop in H1 as [? ?]. apply andb_prop in H2 as [? ?].
  repeat split; now apply N.ltb_lt.
Qed.

(** Putting the bytes together again. *)
Lemma first_byte (a h : N) :
  a < 256 -> h < 16 ->
  N.lor (N.shiftl (N.shiftr a 2) 2)
        (N.shiftr (N.lor (N.shiftl (N.land a 3) 4) h) 4) = a /\
  N.lor (N.shiftl (N.shiftr a 2) 2) (N.shiftr (N.shiftl (N.land a 3) 4) 4) = a.
Proof.
  intros Ha Hh.
  pose proof (check_below2 256 16
    (fun a h =>
       (N.lor (N.shiftl (N.shiftr a 2) 2)
          (N.shiftr (N.lor (N.shiftl (N.land a 3) 4) h) 4) =? a)
       && (N.lor (N.shiftl (N.shiftr a 2) 2)
             (N.shiftr (N.shiftl (N.land a 3) 4) 4) =? a))
    ltac:(vm_compute; reflexivity) a h Ha Hh) as H.
  apply andb_prop in H as [? ?]. split; now apply N.eqb_eq.
Qed.

Lemma second_byte (x b v : N) :
  x < 4 -> b < 256 -> v < 4 ->
  N.lor (N.shiftl (N.land (N.lor (N.shiftl x 4) (N.shiftr b 4)) 15) 4)
        (N.shiftr (N.lor (N.shiftl (N.land b 15) 2) v) 2) = b /\
  N.lor (N.shiftl (N.land (N.lor (N.shiftl x 4) (N.shiftr b 4)) 15) 4)
        (N.shiftr (N.shiftl (N.land b 15) 2) 2) = b.
Proof.
  intros Hx Hb Hv.
  pose proof (check_below3 4 256 4
    (fun x b v =>
       (N.lor (N.shiftl (N.land (N.lor (N.shiftl x 4) (N.shiftr b 4)) 15) 4)
          (N.shiftr (N.lor (N.shiftl (N.land b 15) 2) v) 2) =? b)
       && (N.lor (N.shiftl (N.land (N.lor (N.shiftl x 4) (N.shiftr b 4)) 15) 4)
             (N.shiftr (N.shiftl (N.land b 15) 2) 2) =? b))
    ltac:(vm_compute; reflexivity) x b v Hx Hb Hv) as H.
  apply andb_prop in H as [? ?]. split; now apply N.eqb_eq.
Qed.

Lemma third_byte (l c : N) :
  l < 16 -> c < 256 ->
  N.lor (N.shiftl (N.land (N.lor (N.shiftl l 2) (N.shiftr c 6)) 3) 6)
        (N.land c 63) = c.
Proof.
  intros Hl Hc.
  pose proof (check_below2 16 256
    (fun l c =>
       N.lor (N.shiftl (N.land (N.lor (N.shiftl l 2) (N.shiftr c 6)) 3) 6)
         (N.land c 63) =? c)
    ltac:(vm_compute; reflexivity) l c Hl Hc) as H.
  now apply N.eqb_eq.
Qed.

Lemma base64_decode_quad (x y z u : N) (rest : jsstring) :
  x < 64 -> y < 64 -> z < 64 -> u < 64 ->
  base64_decode
    (base64_char x :: base64_char y :: base64_char z :: base64_char u :: rest)
  = (fun tail =>
       N.lor (N.shiftl x 2) (N.shiftr y 4)
       :: N.lor (N.shiftl (N.land y 15) 4) (N.shiftr z 2)
       :: N.lor (N.shiftl (N.land z 3) 6) u :: tail)
    <$> base64_decode rest.
Proof.
  intros Hx Hy Hz Hu.
  destruct (base64_index_char x Hx) as [Ex _], (base64_index_char y Hy) as [Ey _],
    (base64_index_char z Hz) as [Ez Pz], (base64_index_char u Hu) as [Eu Pu].
  cbn [base64_decode]. rewrite Ex, Ey, Ez, Eu, Pz, Pu. reflexivity.
Qed.

(** Decoding the base64 text of a byte sequence gives the bytes back. *)
Lemma base64_round_trip (bytes : list N) :
  Forall isByte bytes -> base64_decode (toString_base64 bytes) = Some bytes.
Proof.
  remember (length bytes) as n eqn:Hn. revert bytes Hn.
  induction n as [n IH] using lt_wf_ind.
  intros [|a [|b [|c rest]]] Hn Hbytes.
  - reflexivity.
  - apply Forall_cons in Hbytes as [Ha _]. unfold isByte in Ha.
    destruct (byte_pieces a Ha) as (Hx & _ & _ & _ & H0 & _).
    destruct (sextet_bounds (N.land a 3) 0 0 0 Hx) as (_ & H1 & _); try lia.
    destruct (base64_index_char _ H0) as [E0 _],
      (base64_index_char _ H1) as [E1 _].
    cbn [toString_base64 base64_decode]. rewrite E0, E1. cbn.
    now rewrite (proj2 (first_byte a 0 Ha ltac:(lia))).
  - apply Forall_cons in Hbytes as [Ha Hbytes].
    apply Forall_cons in Hbytes as [Hb _]. unfold isByte in Ha, Hb.
    destruct (byte_pieces a Ha) as (Hx & _ & _ & _ & H0 & _).
    destruct (byte_pieces b Hb) as (_ & _ & Hh & Hl & _ & _).
    destruct (sextet_bounds (N.land a 3) (N.shiftr b 4) (N.land b 15) 0 Hx Hh Hl)
      as (H1 & _ & _ & H2); try lia.
    destruct (base64_index_char _ H0) as [E0 _],
      (base64_index_char _ H1) as [E1 _], (base64_index_char _ H2) as [E2 P2].
    cbn [toString_base64 base64_decode]. rewrite E0, E1, E2, P2. cbn.
    rewrite (proj1 (first_byte a (N.shiftr b 4) Ha Hh)).
    now rewrite (proj2 (second_byte (N.land a 3) b 0 Hx Hb ltac:(lia))).
  - apply Forall_cons in Hbytes as [Ha Hbytes].
    apply Forall_cons in Hbytes as [Hb Hbytes].
    apply Forall_cons in Hbytes as [Hc Hrest]. unfold isByte in Ha, Hb, Hc.
    destruct (byte_pieces a Ha) as (Hx & _ & _ & _ & H0 & _).
    destruct (byte_pieces b Hb) as (_ & _ & Hh & Hl & _ & _).
    destruct (byte_pieces c Hc) as (_ & Hv & _ & _ & _ & H3).
    destruct (sextet_bounds (N.land a 3) (N.shiftr b 4) (N.land b 15)
                (N.shiftr c 6) Hx Hh Hl Hv) as (H1 & _ & H2 & _).
    change (toString_base64 (a :: b :: c :: rest))
      with (base64_char (N.shiftr a 2)
            :: base64_char (N.lor (N.shiftl (N.land a 3) 4) (N.shiftr b 4))
            :: base64_char (N.lor (N.shiftl (N.land b 15) 2) (N.shiftr c 6))
            :: base64_char (N.land c 63) :: toString_base64 rest).
    rewrite base64_decode_quad by assumption.
    rewrite (IH (length rest)) by (subst n; cbn; lia || easy).
    cbn [fmap option_fmap option_map].
    rewrite (proj1 (first_byte a (N.shiftr b 4) Ha Hh)).
    rewrite (proj1 (second_byte (N.land a 3) b (N.shiftr c 6) Hx Hb Hv)).
    now rewrite (third_byte (N.land b 15) c Hl Hc).
Qed.

(** The bytes [Buffer.from] writes for code units are bytes. *)
Lemma lor_byte (a b : N) : a < 256 -> b < 256 -> N.lor a b < 256.
Proof.
  intros Ha Hb. apply N.ltb_lt.
  exact (check_below2 256 256 (fun a b => N.lor a b <? 256)
           ltac:(vm_compute; reflexivity) a b Ha Hb).
Qed.

Lemma shiftr_bound (a n k : N) : a < 2 ^ (n + k) -> N.shiftr a n < 2 ^ k.
Proof.
  intros Ha. rewrite N.shiftr_div_pow2.
  apply N.Div0.div_lt_upper_bound. now rewrite <- N.pow_add_r.
Qed.

Lemma continuation_byte (a : N) : N.lor 0x80 (N.land a 0x3F) < 256.
Proof.
  apply lor_byte; [reflexivity|].
  change 0x3F with (N.ones 6). rewrite N.land_ones.
  pose proof (N.mod_lt a (2 ^ 6) ltac:(discriminate)). cbn in *. lia.
Qed.

Lemma utf8_codepoint_bytes (cp : N) :
  cp < 0x110000 -> Forall isByte (utf8_codepoint cp).
Proof.
  intros Hcp. unfold utf8_codepoint.
  destruct (cp <? 0x80) eqn:H1; [apply N.ltb_lt in H1|apply N.ltb_ge in H1].
  { repeat constructor. unfold isByte. lia. }
  destruct (cp <? 0x800) eqn:H2; [apply N.ltb_lt in H2|apply N.ltb_ge in H2].
  { repeat constructor; unfold isByte; [|apply continuation_byte].
    apply lor_byte; [reflexivity|].
    pose proof (shiftr_bound cp 6 5 H2). cbn in *. lia. }
  destruct (cp <? 0x10000) eqn:H3; [apply N.ltb_lt in H3|apply N.ltb_ge in H3].
  { repeat constructor; unfold isByte; try apply continuation_byte.
    apply lor_byte; [reflexivity|].
    pose proof (shiftr_bound cp 12 4 H3). cbn in *. lia. }
  repeat constructor; unfold isByte; try apply continuation_byte.
  apply lor_byte; [reflexivity|].
  assert (Hcp' : cp < 2 ^ (18 + 3)) by (cbn; lia).
  pose proof (shiftr_bound cp 18 3 Hcp'). cbn in *. lia.
Qed.

Lemma surrogate_pair_codepoint (c d : N) :
  isHighSurrogate c = true -> isLowSurrogate d = true ->
  0x10000 + N.shiftl (c - 0xD800) 10 + (d - 0xDC00) < 0x110000.
Proof.
  unfold isHighSurrogate, isLowSurrogate.
  intros [Hc1 Hc2]%andb_prop [Hd1 Hd2]%andb_prop.
  apply N.leb_le in Hc1, Hd1. apply N.ltb_lt in Hc2, Hd2.
  rewrite N.shiftl_mul_pow2. change (2 ^ 10) with 1024. lia.
Qed.

Lemma Buffer_from_bytes (s : jsstring) :
  Forall isCodeUnit s -> Forall isByte (Buffer_from s).
Proof.
  remember (length s) as n eqn:Hn. revert s Hn.
  induction n as [n IH] using lt_wf_ind.
  intros [|c rest] Hn Hs; [constructor|].
  apply Forall_cons in Hs as [Hc Hrest]. unfold isCodeUnit in Hc.
  assert (Hrepl : Forall isByte utf8_replacement)
    by (repeat constructor; reflexivity).
  assert (IHrest : Forall isByte (Buffer_from rest))
    by (apply (IH (length rest)); [subst n; cbn; lia | reflexivity | exact Hrest]).
  rewrite Buffer_from_cons.
  destruct (isHighSurrogate c) eqn:Hhigh.
  - destruct rest as [|d rest']; [exact Hrepl|].
    destruct (isLowSurrogate d) eqn:Hlow.
    + apply Forall_app. split.
      * apply utf8_codepoint_bytes. now apply surrogate_pair_codepoint.
      * apply Forall_cons in Hrest as [_ Hrest'].
        apply (IH (length rest')); [subst n; cbn; lia | reflexivity | exact Hrest'].
    + apply Forall_app. now split.
  - destruct (isLowSurrogate c).
    + apply Forall_app. now split.
    + apply Forall_app. split; [|exact IHrest].
      apply utf8_codepoint_bytes. lia.
Qed.

(** X24. What the server reads back from the credential: for an address
    and a token of UTF-16 code units, base64-decoding the string
    [buildXOAuth2Token] returns gives the very bytes
    [user=<addr>\x01auth=Bearer <token>\x01\x01]. *)
Corollary credential_decodes (email accessToken : jsstring) :
  Forall isCodeUnit email -> Forall isCodeUnit accessToken ->
  base64_decode (buildXOAuth2Token email accessToken)
  = Some (js "user=" ++ Buffer_from email ++ [0x01]
          ++ js "auth=Bearer " ++ Buffer_from accessToken ++ [0x01; 0x01]).
Proof.
  intros Hemail Htoken. unfold buildXOAuth2Token. cbv zeta.
  rewrite authString_bytes. apply base64_round_trip.
  repeat (apply Forall_app; split);
    try (now apply Buffer_from_bytes);
    repeat constructor; reflexivity.
Qed.

(** ** The cache merge *)

Section CacheMerger.

Variable env : Env.

Lemma find_None_of_count {A} (p : A -> bool) (l : list A) :
  length (List.filter p l) = 0%nat -> List.find p l = None.
Proof.
  induction l as [|x l IH]; simpl; [easy|].
  destruct (p x); simpl; [discriminate | exact IH].
Qed.

Lemma find_Some_of_count {A} (p : A -> bool) (l : list A) :
  (0 < length (List.filter p l))%nat -> exists x, List.find p l = Some x.
Proof.
  induction l as [|x l IH]; simpl; [lia|].
  destruct (p x); simpl; [eauto | exact IH].
Qed.

Lemma countKey_app (userId mid : N) (l1 l2 : list EmailRow) :
  countKey userId mid (l1 ++ l2)
  = (countKey userId mid l1 + countKey userId mid l2)%nat.
Proof. unfold countKey. now rewrite List.filter_app, length_app. Qed.

Lemma hasKey_own (userId : N) (email : EmailData) :
  hasKey userId (messageId email)
    {| row_userId := userId; row_email := email |} = true.
Proof. unfold hasKey; simpl. now rewrite !N.eqb_refl. Qed.

(** A record whose key is not stored yet is inserted and counted as
    saved. *)
Lemma save_fresh (userId : N) (email : EmailData) (w : World) :
  countKey userId (messageId email) (emails w) = 0%nat ->
  db_fault env (db_clock w) = None ->
  saveEmailsToDatabase env [email] userId w
  = (Ok tt,
     emit (savedReport userId 1 1 0)
       (set_emails (emails w ++ [{| row_userId := userId; row_email := email |}])
          (tick (emit (EvDb (EmailFindOrCreate userId (messageId email))) w)))).
Proof.
  intros Habs Hok.
  cbv beta iota zeta delta [saveEmailsToDatabase try_catch bind saveLoop
    Email_findOrCreate db_write ret].
  rewrite Hok. cbn [tick emit emails].
  now rewrite (find_None_of_count _ _ Habs).
Qed.

(** A record whose key is stored is counted as skipped; the table is the
    same afterwards. *)
Lemma save_known (userId : N) (email : EmailData) (w : World) :
  (0 < countKey userId (messageId email) (emails w))%nat ->
  db_fault env (db_clock w) = None ->
  saveEmailsToDatabase env [email] userId w
  = (Ok tt,
     emit (savedReport userId 1 0 1)
       (tick (emit (EvDb (EmailFindOrCreate userId (messageId email))) w))).
Proof.
  intros Hin Hok.
  destruct (find_Some_of_count _ _ Hin) as [r Hr].
  cbv beta iota zeta delta [saveEmailsToDatabase try_catch bind saveLoop
    Email_findOrCreate db_write ret].
  rewrite Hok. cbn [tick emit emails].
  now rewrite Hr.
Qed.

(** Whatever the store answers, merging a record whose key is stored
    leaves every row as it was. *)
Lemma save_known_table (userId : N) (email : EmailData) (w : World) :
  (0 < countKey userId (messageId email) (emails w))%nat ->
  emails (snd (saveEmailsToDatabase env [email] userId w)) = emails w.
Proof.
  intros Hin.
  destruct (db_fault env (db_clock w)) as [message|] eqn:Hf.
  - cbv beta iota zeta delta [saveEmailsToDatabase try_catch bind saveLoop
      Email_findOrCreate db_write logger].
    now rewrite Hf.
  - now rewrite save_known.
Qed.

(** C1. Merging one record twice for one owner, starting from a table
    that does not hold its key and with the store accepting both calls:
    the first merge reports saved=1 skipped=0, the second reports saved=0
    skipped=1, exactly one row is stored under the key after each, and any
    merge of a record whose key is already stored (whatever its content)
    leaves the table as it was. *)
Theorem merge_twice_inserts_once (userId : N) (email : EmailData) (w : World) :
  countKey userId (messageId email) (emails w) = 0%nat ->
  db_fault env (db_clock w) = None ->
  db_fault env (S (db_clock w)) = None ->
  let first := saveEmailsToDatabase env [email] userId w in
  let second := saveEmailsToDatabase env [email] userId (snd first) in
  last (trace (snd first)) = Some (savedReport userId 1 1 0) /\
  last (trace (snd second)) = Some (savedReport userId 1 0 1) /\
  countKey userId (messageId email) (emails (snd first)) = 1%nat /\
  countKey userId (messageId email) (emails (snd second)) = 1%nat /\
  emails (snd second) = emails (snd first) /\
  (forall (email' : EmailData) (w' : World),
      messageId email' = messageId email ->
      (0 < countKey userId (messageId email) (emails w'))%nat ->
      emails (snd (saveEmailsToDatabase env [email'] userId w')) = emails w').
Proof.
  intros Habs Hok1 Hok2 first second.
  pose proof (save_fresh userId email w Habs Hok1) as E1.
  fold first in E1.
  assert (C1 : countKey userId (messageId email) (emails (snd first)) = 1%nat).
  { rewrite E1. cbn [snd emit set_emails emails].
    rewrite countKey_app, Habs. unfold countKey; simpl.
    now rewrite hasKey_own. }
  assert (Hok2' : db_fault env (db_clock (snd first)) = None)
    by (rewrite E1; exact Hok2).
  pose proof (save_known userId email (snd first) ltac:(lia) Hok2') as E2.
  fold second in E2.
  repeat split.
  - rewrite E1. cbn [snd emit trace]. apply last_snoc.
  - rewrite E2. cbn [snd emit trace]. apply last_snoc.
  - exact C1.
  - rewrite E2. cbn [snd emit tick emails]. exact C1.
  - rewrite E2. reflexivity.
  - intros email' w' Hid Hin. apply save_known_table. now rewrite Hid.
Qed.

(** One find-or-create either leaves the table alone or appends the row
    of a key that was not stored. *)
Lemma findOrCreate_table (userId : N) (email : EmailData) (w : World) :
  let run := Email_findOrCreate env userId email w in
  (emails (snd run) = emails w /\
   (forall found, fst run = Ok found -> snd found = false)) \/
  (countKey userId (messageId email) (emails w) = 0%nat /\
   emails (snd run)
   = emails w ++ [{| row_userId := userId; row_email := email |}] /\
   exists found, fst run = Ok found /\ snd found = true).
Proof.
  cbv beta iota zeta delta [Email_findOrCreate db_write].
  destruct (db_fault env (db_clock w)) as [message|].
  - left. split; [reflexivity | discriminate].
  - cbn [emails tick emit].
    destruct (List.find _ (emails w)) as [r|] eqn:Hfind.
    + left. split; [reflexivity|]. now intros found [= <-].
    + right. split; [|split; [reflexivity | eauto]].
      unfold countKey. clear -Hfind.
      induction (emails w) as [|r rows IH]; [reflexivity|].
      cbn in Hfind |- *. destruct (hasKey _ _ r); [discriminate | auto].
Qed.

(** The merge only ever appends: the rows stored before it are all still
    there, in place and unchanged (first write wins). *)
Lemma saveLoop_appends (batch : list EmailData) (userId : N)
    (saved skipped : N) (w : World) :
  exists added,
    emails (snd (saveLoop env batch userId saved skipped w))
    = emails w ++ added.
Proof.
  revert saved skipped w.
  induction batch as [|email rest IH]; intros saved skipped w.
  - exists []. cbn. now rewrite app_nil_r.
  - cbn [saveLoop]. unfold bind.
    pose proof (findOrCreate_table userId email w) as Hstep. cbv zeta in Hstep.
    destruct (Email_findOrCreate env userId email w) as [[found|message] w1].
    + cbn [fst snd] in Hstep.
      destruct (snd found).
      * destruct (IH (saved + 1) skipped w1) as [added Hadded].
        destruct Hstep as [[Hsame _]|(_ & Hnew & _)]; rewrite Hadded.
        -- rewrite Hsame. eauto.
        -- rewrite Hnew, <- app_assoc. eauto.
      * destruct (IH saved (skipped + 1) w1) as [added Hadded].
        destruct Hstep as [[Hsame _]|(_ & Hnew & _)]; rewrite Hadded.
        -- rewrite Hsame. eauto.
        -- rewrite Hnew, <- app_assoc. eauto.
    + cbn [fst snd] in Hstep |- *.
      destruct Hstep as [[Hsame _]|(_ & _ & found & Hfound & _)];
        [|discriminate].
      exists []. now rewrite app_nil_r.
Qed.

(** No key is ever stored twice: the loop keeps a table with at most one
    row per (owner, message id) that way, for any batch and any answers
    of the store. *)
Lemma saveLoop_unique (batch : list EmailData) (userId : N)
    (saved skipped : N) (w : World) :
  (forall u m, countKey u m (emails w) <= 1)%nat ->
  (forall u m,
      countKey u m (emails (snd (saveLoop env batch userId saved skipped w)))
      <= 1)%nat.
Proof.
  revert saved skipped w.
  induction batch as [|email rest IH]; intros saved skipped w Huniq.
  - exact Huniq.
  - cbn [saveLoop]. unfold bind.
    pose proof (findOrCreate_table userId email w) as Hstep. cbv zeta in Hstep.
    destruct (Email_findOrCreate env userId email w) as [[found|message] w1];
      cbn [fst snd] in Hstep.
    + assert (Huniq1 : forall u m, (countKey u m (emails w1) <= 1)%nat).
      { destruct Hstep as [[Hsame _]|(Hfresh & Hnew & _)].
        - now rewrite Hsame.
        - intros u m. rewrite Hnew, countKey_app.
          unfold countKey at 2. cbn [List.filter].
          destruct (hasKey u m _) eqn:Hk; cbn [length].
          + unfold hasKey in Hk. cbn in Hk.
            apply andb_prop in Hk as [Hu%N.eqb_eq Hm%N.eqb_eq].
            rewrite <- Hu, <- Hm, Hfresh. lia.
          + specialize (Huniq u m). lia. }
      destruct (snd found); now apply IH.
    + destruct Hstep as [[Hsame _]|(_ & _ & found & Hfound & _)];
        [|discriminate].
      cbn [snd]. now rewrite Hsame.
Qed.

(** When the loop finishes, every record of the batch was counted once,
    as saved or as skipped. *)
Lemma saveLoop_counts (batch : list EmailData) (userId : N)
    (saved skipped saved' skipped' : N) (w w' : World) :
  saveLoop env batch userId saved skipped w = (Ok (saved', skipped'), w') ->
  saved' + skipped' = saved + skipped + N.of_nat (length batch).
Proof.
  revert saved skipped w.
  induction batch as [|email rest IH]; intros saved skipped w.
  - cbn. unfold ret. intros [= <- <- _]. lia.
  - cbn [saveLoop]. unfold bind.
    destruct (Email_findOrCreate env userId email w) as [[found|message] w1];
      [|discriminate].
    destruct (snd found); intros Hrest; apply IH in Hrest; cbn [length]; lia.
Qed.

End CacheMerger.

(** ** Token refresh *)

Section TokenRefresher.

Variable env : Env.

Ltac run_refresh :=
  cbv beta iota zeta delta [refreshAccessToken bind try_catch logger
    setCredentials getAccessToken freshOf ret throw user_update db_write].

(** C4. Without a refresh token ([null], [undefined] or the empty
    string) the refresh throws the re-authentication error at once: the
    world is the one it started in, so nothing was sent to the identity
    provider. *)
Theorem refresh_without_refresh_token (user : User) (w : World) :
  falsy_opt (refreshToken user) = true ->
  refreshAccessToken env user w = (Throw errNoRefreshToken, w) /\
  List.filter isProviderCall (trace (snd (refreshAccessToken env user w)))
  = List.filter isProviderCall (trace w).
Proof.
  intros Habsent.
  assert (E : refreshAccessToken env user w = (Throw errNoRefreshToken, w)).
  { unfold refreshAccessToken. now rewrite Habsent. }
  split; [exact E | now rewrite E].
Qed.

(** With a refresh token the provider is asked exactly once. *)
Lemma refresh_asks_provider (user : User) (w : World) :
  falsy_opt (refreshToken user) = false ->
  List.filter isProviderCall (trace (snd (refreshAccessToken env user w)))
  = List.filter isProviderCall (trace w)
    ++ [EvGetAccessToken {| access_token := accessToken user;
                            refresh_token := refreshToken user |}].
Proof.
  intros Hrt. run_refresh. rewrite Hrt.
  cbn [client_credentials set_credentials emit].
  destruct (oauth_getAccessToken env _) as [[|s|[t|]]|message];
    cbn [snd trace emit set_credentials tick];
    repeat (try destruct (falsy _); try destruct (bool_decide _);
            try destruct (db_fault env _);
            cbn [snd trace emit set_credentials set_users tick]);
    rewrite ?List.filter_app; cbn [List.filter isProviderCall];
    now rewrite ?app_nil_r.
Qed.

Lemma tokenOf_fresh (resp : TokenResponse) (t : jsstring) :
  tokenOf resp = Some t -> falsy t = false -> freshOf resp = RespString t.
Proof.
  destruct resp as [|s|[s|]]; cbn; intros [= ->] Ht; [easy | now rewrite Ht].
Qed.

Lemma storedToken_updated (id : N) (t : jsstring) (us : list User) :
  List.find (fun u => user_id u =? id) us <> None ->
  accessToken
    <$> List.find (fun u => user_id u =? id)
          ((fun u => if user_id u =? id then setAccessToken t u else u) <$> us)
  = Some (Some t).
Proof.
  induction us as [|u us IH]; cbn; [easy|].
  destruct (user_id u =? id) eqn:E; cbn; rewrite E; [reflexivity | exact IH].
Qed.

(** C5. For an account with a refresh token to which the provider
    answers with the (non-empty) token [t]:
    - if [t] is the stored token, the refresh returns [t], the users
      table is untouched and no [user.update] is issued;
    - otherwise exactly one [user.update] with [t] is issued; whenever the
      refresh returns, it returns [t] and the account's row holds [t];
      and it does return when the store accepts the update. *)
Theorem refresh_persists_only_changes (user : User) (w : World)
    (resp : TokenResponse) (t : jsstring) :
  falsy_opt (refreshToken user) = false ->
  oauth_getAccessToken env
    {| access_token := accessToken user; refresh_token := refreshToken user |}
  = Ok resp ->
  tokenOf resp = Some t ->
  falsy t = false ->
  let run := refreshAccessToken env user w in
  (accessToken user = Some t ->
     fst run = Ok t /\
     users (snd run) = users w /\
     List.filter isUserUpdate (trace (snd run))
     = List.filter isUserUpdate (trace w)) /\
  (accessToken user <> Some t ->
     List.filter isUserUpdate (trace (snd run))
     = List.filter isUserUpdate (trace w) ++ [EvDb (UserUpdate (user_id user) t)] /\
     (forall x, fst run = Ok x ->
        x = t /\
        (storedToken (user_id user) w <> None ->
         storedToken (user_id user) (snd run) = Some (Some t))) /\
     (db_fault env (db_clock w) = None -> fst run = Ok t)).
Proof.
  intros Hrt Hresp Htok Ht run.
  assert (Hfresh := tokenOf_fresh resp t Htok Ht).
  subst run. split.
  - intros Hsame. run_refresh. rewrite Hrt.
    cbn [client_credentials set_credentials emit].
    rewrite Hresp. cbv beta iota.
    unfold freshOf in Hfresh. rewrite Hfresh. rewrite Ht.
    rewrite bool_decide_eq_true_2 by (now rewrite Hsame).
    cbn [fst snd users trace emit set_credentials].
    repeat split.
    rewrite !List.filter_app. cbn [List.filter isUserUpdate].
    now rewrite !app_nil_r.
  - intros Hdiff. run_refresh. rewrite Hrt.
    cbn [client_credentials set_credentials emit].
    rewrite Hresp. cbv beta iota.
    unfold freshOf in Hfresh. rewrite Hfresh. rewrite Ht.
    rewrite bool_decide_eq_false_2 by congruence.
    cbn [db_clock emit set_credentials].
    destruct (db_fault env (db_clock w)) as [message|] eqn:Hf;
      cbn [fst snd users trace emit set_credentials set_users tick].
    + repeat split; try discriminate.
      rewrite !List.filter_app. cbn [List.filter isUserUpdate].
      now rewrite !app_nil_r.
    + repeat split.
      * rewrite !List.filter_app. cbn [List.filter isUserUpdate].
        now rewrite !app_nil_r.
      * congruence.
      * intros Hrow. unfold storedToken in *.
        cbn [users]. apply storedToken_updated.
        intros E. apply Hrow. now rewrite E.
Qed.

End TokenRefresher.

(** ** The mailbox reader *)

Section MailboxReader.

Variable env : Env.

Lemma appendTrace_nil (w : World) : appendTrace [] w = w.
Proof. destruct w; unfold appendTrace; cbn. now rewrite app_nil_r. Qed.

Lemma appendTrace_emit (e : Event) (w : World) : emit e w = appendTrace [e] w.
Proof. reflexivity. Qed.

Lemma appendTrace_twice (a b : list Event) (w : World) :
  appendTrace b (appendTrace a w) = appendTrace (a ++ b) w.
Proof. unfold appendTrace; cbn. now rewrite app_assoc. Qed.

Lemma quiet_filter (es : list Event) :
  quiet es -> List.filter isNetworkCall es = [].
Proof.
  induction 1 as [|e es He _ IH]; cbn; [reflexivity|]. now rewrite He.
Qed.

Ltac silent := exists []; rewrite appendTrace_nil; split; [reflexivity | constructor].
Ltac one_line := eexists [_]; split; [reflexivity | repeat constructor].

(** The callback settles as [messageOutcome] says and only logs. *)
Lemma processMessage_outcome (message : Message) (w : World) :
  exists logs,
    processMessage env message w
    = (messageOutcome env message, appendTrace logs w) /\ quiet logs.
Proof.
  unfold messageOutcome, recordOf.
  cbv beta iota zeta delta [processMessage try_catch bind readParts readUid
    ret throw logger simpleParser_call].
  destruct (parts message) as [ps|], (attributes message) as [a|]; cbv beta iota.
  - destruct (truthyBody (findPart [] ps)); cbv beta iota.
    + destruct (simpleParser env _) as [parsed|parseErr]; cbv beta iota.
      * silent.
      * one_line.
    + silent.
  - silent.
  - one_line.
  - silent.
Qed.

(** [Promise.all] over the callbacks: the outcomes collected, only log
    lines added. *)
Lemma promiseAll_outcome (messages : list Message) (w : World) :
  exists logs,
    promiseAllMap (processMessage env) messages w
    = (collect (messageOutcome env <$> messages), appendTrace logs w)
    /\ quiet logs.
Proof.
  revert w. induction messages as [|m ms IH]; intros w.
  - exists []. cbn. unfold ret. rewrite appendTrace_nil. split; [reflexivity | constructor].
  - destruct (processMessage_outcome m w) as (l1 & E1 & Q1).
    destruct (IH (appendTrace l1 w)) as (l2 & E2 & Q2).
    exists (l1 ++ l2). split; [|now apply Forall_app].
    cbn [promiseAllMap fmap list_fmap collect]. rewrite E1, E2.
    rewrite appendTrace_twice.
    destruct (messageOutcome env m), (collect _); reflexivity.
Qed.

Lemma collect_length {A} (outcomes : list (Res A)) (values : list A) :
  collect outcomes = Ok values -> length values = length outcomes.
Proof.
  revert values. induction outcomes as [|r rest IH]; cbn; intros values.
  - now intros [= <-].
  - destruct r as [v|e]; [|discriminate].
    destruct (collect rest) as [vs|e]; [|discriminate].
    intros [= <-]. cbn. now rewrite (IH vs).
Qed.

(** When no callback rejects, the non-null results are the kept records,
    in the order of the messages. *)
Lemma collect_kept (messages : list Message) (results : list (option EmailData)) :
  collect (messageOutcome env <$> messages) = Ok results ->
  filterNotNull results = omap (keptRecord env) messages.
Proof.
  revert results. induction messages as [|m ms IH]; cbn; intros results.
  - now intros [= <-].
  - unfold keptRecord at 1.
    destruct (messageOutcome env m) as [r|e]; [|discriminate].
    destruct (collect _) as [rs|e]; [|discriminate].
    intros [= <-]. unfold filterNotNull in *. cbn.
    rewrite (IH rs eq_refl). now destruct r.
Qed.

Lemma wellFormed_outcome (message : Message) :
  wellFormed message = true ->
  exists a ps, attributes message = Some a /\ parts message = Some ps /\
    messageOutcome env message = Ok (Some (recordOf env (uid a) ps)).
Proof.
  unfold wellFormed, messageOutcome.
  destruct (attributes message) as [a|], (parts message) as [ps|];
    try discriminate.
  intros _. now exists a, ps.
Qed.

(** A batch of well-formed messages settles with one record each. *)
Lemma collect_wellFormed (messages : list Message) :
  forallb wellFormed messages = true ->
  exists records,
    collect (messageOutcome env <$> messages) = Ok (Some <$> records) /\
    omap (keptRecord env) messages = records /\
    length records = length messages.
Proof.
  induction messages as [|m ms IH]; cbn.
  - intros _. now exists [].
  - intros [Hm Hms]%andb_prop.
    destruct (IH Hms) as (records & E & K & L).
    destruct (wellFormed_outcome m Hm) as (a & ps & _ & _ & Em).
    exists (recordOf env (uid a) ps :: records).
    unfold keptRecord at 1. rewrite Em, E. cbn. now rewrite K, L.
Qed.

Ltac normalise_trace :=
  rewrite ?appendTrace_emit, ?appendTrace_twice.

Ltac filter_trace Q :=
  rewrite ?List.filter_app, ?(quiet_filter _ Q);
  cbn [List.filter isNetworkCall app].

(** A session on an open connection: its result, and the calls it adds
    to the trace; when it returns, [connection.end()] is the last call it
    made to the server. *)
Lemma fetchSession_run (connection : Connection) (emailAddress : jsstring)
    (limit : Z) (w : World) :
  exists added,
    fetchSession env connection emailAddress limit w
    = (sessionResult env connection limit, appendTrace added w) /\
    (forall emails, sessionResult env connection limit = Ok emails ->
       last (List.filter isNetworkCall added) = Some EvImapEnd).
Proof.
  unfold sessionResult.
  cbv beta iota zeta delta [fetchSession bind openBox search connection_end
    logger ret].
  change {| bodies := [js "HEADER"; js "TEXT"; []]; struct := true;
            markSeen := false |} with searchOptions.
  destruct (conn_openBox connection (js "INBOX")) as [[]|e]; cbv beta iota.
  2: { eexists [_]. split; [reflexivity | discriminate]. }
  destruct (conn_search connection [js "ALL"] searchOptions) as [messages|e];
    cbv beta iota.
  2: { normalise_trace. eexists. split; [reflexivity | discriminate]. }
  match goal with
  | |- context [promiseAllMap _ ?ms ?w0] =>
      destruct (promiseAll_outcome ms w0) as (logs & E & Q); rewrite E
  end.
  destruct (collect _) as [results|e]; cbv beta iota.
  2: { normalise_trace. eexists. split; [reflexivity | discriminate]. }
  destruct (conn_end connection) as [[]|e]; cbv beta iota.
  2: { normalise_trace. eexists. split; [reflexivity | discriminate]. }
  normalise_trace. eexists. split; [reflexivity|].
  intros _ _. filter_trace Q. reflexivity.
Qed.

(** The result of [fetchEmails], without the world. *)
Lemma fetchEmails_result (accessToken emailAddress : jsstring)
    (limit : option Z) (w : World) :
  fst (fetchEmails env accessToken emailAddress limit w)
  = match imaps_connect env
            (imapConfig env (buildXOAuth2Token emailAddress accessToken)
               emailAddress) with
    | Throw e => Throw e
    | Ok connection => sessionResult env connection (default 50%Z limit)
    end.
Proof.
  cbv beta iota zeta delta [fetchEmails bind logger connect fetchFailed
    try_catch ret throw].
  destruct (imaps_connect env _) as [connection|e]; cbv beta iota.
  2: reflexivity.
  match goal with
  | |- context [fetchSession _ ?c ?a ?l ?w0] =>
      destruct (fetchSession_run c a l w0) as (added & E & _); rewrite E
  end.
  destruct (sessionResult env connection _) as [emails|e]; [reflexivity|].
  cbv beta iota delta [connection_end].
  now destruct (conn_end connection) as [[]|e'].
Qed.

Lemma withHeader_keeps (header : option Part) (e : EmailData) :
  messageId (withHeader header e) = messageId e /\
  body (withHeader header e) = body e /\
  bodyHtml (withHeader header e) = bodyHtml e /\
  hasAttachments (withHeader header e) = hasAttachments e.
Proof.
  unfold withHeader.
  destruct (truthyBody header); [|easy].
  destruct (part_body <$> header) as [[]|]; easy.
Qed.

(** What the header block writes: the first entry of each header line,
    [""] for a line that is missing, and the current time for a missing
    date; without a header part the initial values stay. *)
Lemma withHeader_fields (header : option Part) (e : EmailData) :
  (forall hfrom hsubject hdate,
      part_body <$> header = Some (BodyHeader hfrom hsubject hdate) ->
      from (withHeader header e) = default [] (head hfrom) /\
      subject (withHeader header e) = default [] (head hsubject) /\
      date (withHeader header e)
      = match head hdate with
        | Some (c :: d) => DateOf (c :: d)
        | _ => DateNow
        end) /\
  (header = None ->
   from (withHeader header e) = from e /\
   subject (withHeader header e) = subject e /\
   date (withHeader header e) = date e).
Proof.
  split.
  - intros hfrom hsubject hdate Hbody. unfold withHeader.
    destruct header as [part|]; [|discriminate].
    cbn in Hbody |- *. injection Hbody as Hbody. rewrite Hbody. cbn.
    split; [reflexivity|]. split; [reflexivity|].
    unfold firstOf. now destruct (head hdate) as [[|c d]|].
  - now intros ->.
Qed.

Lemma substring0_length (n : N) (s : jsstring) :
  N.of_nat (length (substring0 n s)) <= n.
Proof. unfold substring0. rewrite length_take. lia. Qed.

(** The truncation bounds of every record. *)
Lemma recordOf_bounds (id : N) (ps : list Part) :
  N.of_nat (length (body (recordOf env id ps))) <= 5000 /\
  N.of_nat (length (bodyHtml (recordOf env id ps))) <= 10000.
Proof.
  unfold recordOf.
  set (e := withHeader _ _).
  assert (Hb : body e = []) by apply withHeader_keeps.
  assert (Hh : bodyHtml e = []) by apply withHeader_keeps.
  assert (He : N.of_nat (length (body e)) <= 5000 /\
               N.of_nat (length (bodyHtml e)) <= 10000)
    by (rewrite Hb, Hh; cbn; lia).
  destruct (truthyBody _); [|exact He].
  destruct (simpleParser env _) as [parsed|]; [|exact He].
  unfold withParsed; cbn [body bodyHtml]. split.
  - destruct (negb (falsy_opt (text parsed))); [apply substring0_length|].
    destruct (negb (falsy_opt (html parsed))); [apply substring0_length|].
    apply He.
  - destruct (negb (falsy_opt (html parsed))); [apply substring0_length|].
    apply He.
Qed.

Lemma keptRecord_bounds (message : Message) (e : EmailData) :
  keptRecord env message = Some e ->
  N.of_nat (length (body e)) <= 5000 /\
  N.of_nat (length (bodyHtml e)) <= 10000.
Proof.
  unfold keptRecord, messageOutcome.
  destruct (attributes message) as [a|]; [|discriminate].
  destruct (parts message) as [ps|]; [|discriminate].
  intros [= <-]. apply recordOf_bounds.
Qed.

Lemma omap_length_le {A B} (f : A -> option B) (l : list A) :
  (length (omap f l) <= length l)%nat.
Proof.
  induction l as [|x l IH]; cbn; [lia|]. destruct (f x); cbn; lia.
Qed.

Lemma slice0_take {A} (l : list A) (e : Z) :
  (0 <= e)%Z -> slice0 l e = take (Z.to_nat e) l.
Proof.
  intros He. unfold slice0.
  destruct (e <? 0)%Z eqn:E; [lia | reflexivity].
Qed.

(** C7. With a limit that is not negative (50 when none is given),
    whenever [fetchEmails] returns, its records are those kept from the
    first [limit] messages of the server's answer, in the server's order:
    there are at most [limit] of them, each with a plain-text body of at
    most 5000 and an HTML body of at most 10000 code units. *)
Theorem fetchEmails_at_most_limit (accessToken emailAddress : jsstring)
    (limit : option Z) (w : World) (emails : list EmailData) :
  (0 <= default 50%Z limit)%Z ->
  fst (fetchEmails env accessToken emailAddress limit w) = Ok emails ->
  (length emails <= Z.to_nat (default 50%Z limit))%nat /\
  (exists connection messages,
      imaps_connect env
        (imapConfig env (buildXOAuth2Token emailAddress accessToken)
           emailAddress) = Ok connection /\
      conn_search connection [js "ALL"] searchOptions = Ok messages /\
      emails = omap (keptRecord env)
                 (take (Z.to_nat (default 50%Z limit)) messages)) /\
  Forall (fun e => N.of_nat (length (body e)) <= 5000 /\
                   N.of_nat (length (bodyHtml e)) <= 10000) emails.
Proof.
  intros Hlimit. rewrite fetchEmails_result.
  destruct (imaps_connect env _) as [connection|e] eqn:Hc; [|discriminate].
  unfold sessionResult.
  destruct (conn_openBox connection _) as [[]|e]; [|discriminate].
  destruct (conn_search connection _ _) as [messages|e] eqn:Hs; [|discriminate].
  destruct (collect _) as [results|e] eqn:Hr; [|discriminate].
  destruct (conn_end connection) as [[]|e]; [|discriminate].
  intros [= <-].
  rewrite (collect_kept _ _ Hr), slice0_take by exact Hlimit.
  repeat split.
  - etransitivity; [apply omap_length_le|]. rewrite length_take. lia.
  - now exists connection, messages.
  - apply Forall_forall. intros e [m [_ Hm]]%list_elem_of_omap.
    exact (keptRecord_bounds m e Hm).
Qed.

(** Why the limit has to be valid: a negative one counts from the end of
    the list. *)
Lemma slice0_negative {A} (l : list A) :
  slice0 l (-1) = take (length l - 1) l.
Proof.
  unfold slice0. cbn [Z.ltb Z.compare]. f_equal. lia.
Qed.

Lemma filterNotNull_Some {A} (l : list A) : filterNotNull (Some <$> l) = l.
Proof.
  unfold filterNotNull. induction l as [|x l IH]; cbn; [reflexivity|].
  now rewrite IH.
Qed.

(** The record of a message whose body does not parse: the identifier
    and the header fields only. *)
Lemma recordOf_parse_failure (id : N) (ps : list Part) (all : Part)
    (parseErr : jsstring) :
  findPart [] ps = Some all ->
  simpleParser env (part_body all) = Throw parseErr ->
  messageId (recordOf env id ps) = id /\
  body (recordOf env id ps) = [] /\
  bodyHtml (recordOf env id ps) = [] /\
  hasAttachments (recordOf env id ps) = Some false.
Proof.
  intros Hall Hfail. unfold recordOf. rewrite Hall.
  change (default BodyAbsent (part_body <$> Some all)) with (part_body all).
  rewrite Hfail.
  destruct (truthyBody (Some all)); apply withHeader_keeps.
Qed.

(** Its header fields are those of the header part. *)
Lemma recordOf_parse_failure_header (id : N) (ps : list Part) (all : Part)
    (parseErr : jsstring) :
  findPart [] ps = Some all ->
  simpleParser env (part_body all) = Throw parseErr ->
  (forall hfrom hsubject hdate,
      part_body <$> findPart (js "HEADER") ps
      = Some (BodyHeader hfrom hsubject hdate) ->
      from (recordOf env id ps) = default [] (head hfrom) /\
      subject (recordOf env id ps) = default [] (head hsubject) /\
      date (recordOf env id ps)
      = match head hdate with
        | Some (c :: d) => DateOf (c :: d)
        | _ => DateNow
        end) /\
  (findPart (js "HEADER") ps = None ->
   from (recordOf env id ps) = [] /\
   subject (recordOf env id ps) = [] /\
   date (recordOf env id ps) = DateNow).
Proof.
  intros Hall Hfail. unfold recordOf. rewrite Hall.
  change (default BodyAbsent (part_body <$> Some all)) with (part_body all).
  rewrite Hfail.
  destruct (truthyBody (Some all)); apply withHeader_fields.
Qed.

(** C2 (amended). In a batch of well-formed messages fetched over a
    session whose own calls succeed, a message whose body fails to parse
    is not dropped: [fetchEmails] returns, with one record per fetched
    message in the same position, and the record of such a message has
    its uid, its header fields (the first entry of the from, subject and
    date lines of the header part; empty strings and the current time
    for what is missing), an empty plain-text and HTML body, and
    hasAttachments false. *)
Theorem parse_failure_keeps_message (accessToken emailAddress : jsstring)
    (limit : option Z) (w : World) (connection : Connection)
    (messages : list Message) :
  imaps_connect env
    (imapConfig env (buildXOAuth2Token emailAddress accessToken) emailAddress)
  = Ok connection ->
  conn_openBox connection (js "INBOX") = Ok tt ->
  conn_search connection [js "ALL"] searchOptions = Ok messages ->
  conn_end connection = Ok tt ->
  forallb wellFormed (slice0 messages (default 50%Z limit)) = true ->
  exists emails,
    fst (fetchEmails env accessToken emailAddress limit w) = Ok emails /\
    length emails = length (slice0 messages (default 50%Z limit)) /\
    forall (i : nat) (message : Message) (a : Attributes) (ps : list Part)
           (all : Part) (parseErr : jsstring),
      slice0 messages (default 50%Z limit) !! i = Some message ->
      attributes message = Some a ->
      parts message = Some ps ->
      findPart [] ps = Some all ->
      truthyBody (Some all) = true ->
      simpleParser env (part_body all) = Throw parseErr ->
      exists e,
        emails !! i = Some e /\ messageId e = uid a /\
        body e = [] /\ bodyHtml e = [] /\ hasAttachments e = Some false /\
        (forall hfrom hsubject hdate,
            part_body <$> findPart (js "HEADER") ps
            = Some (BodyHeader hfrom hsubject hdate) ->
            from e = default [] (head hfrom) /\
            subject e = default [] (head hsubject) /\
            date e = match head hdate with
                     | Some (c :: d) => DateOf (c :: d)
                     | _ => DateNow
                     end) /\
        (findPart (js "HEADER") ps = None ->
         from e = [] /\ subject e = [] /\ date e = DateNow).
Proof.
  intros Hc Ho Hs He Hwf.
  destruct (collect_wellFormed _ Hwf) as (records & Hr & Hk & Hl).
  exists records. split; [|split; [exact Hl|]].
  - rewrite fetchEmails_result, Hc. unfold sessionResult.
    rewrite Ho, Hs, Hr, He. now rewrite filterNotNull_Some.
  - intros i message a ps all parseErr Hi Ha Hp Hall _ Hfail.
    exists (recordOf env (uid a) ps). split.
    + clear Hr Hl. revert i records Hk Hi.
      induction (slice0 messages (default 50%Z limit)) as [|m ms IH];
        intros i records Hk Hi; [now rewrite lookup_nil in Hi|].
      cbn in Hwf. apply andb_prop in Hwf as [Hm Hms].
      destruct (wellFormed_outcome m Hm) as (a' & ps' & Ha' & Hp' & Em).
      cbn in Hk. unfold keptRecord at 1 in Hk. rewrite Em in Hk. subst records.
      destruct i as [|i]; cbn in Hi |- *.
      * injection Hi as ->. rewrite Ha in Ha'. rewrite Hp in Hp'.
        now injection Ha' as <-; injection Hp' as <-.
      * now apply IH.
    + destruct (recordOf_parse_failure (uid a) ps all parseErr Hall Hfail)
        as (Hid & Hbody & Hhtml & Hatt).
      destruct (recordOf_parse_failure_header (uid a) ps all parseErr Hall Hfail)
        as (Hheader & Hbare).
      repeat (split; [assumption|]). exact Hbare.
Qed.

(** C9. Once [imaps.connect] has resolved, every run of [fetchEmails],
    whether it returns or throws, only adds to the trace, starts its
    dealings with the server by that connect, and ends them with
    [connection.end()]: nothing is sent on the connection afterwards and
    no run leaves without closing it. *)
Theorem fetchEmails_closes_connection (accessToken emailAddress : jsstring)
    (limit : option Z) (w : World) (connection : Connection) :
  imaps_connect env
    (imapConfig env (buildXOAuth2Token emailAddress accessToken) emailAddress)
  = Ok connection ->
  exists added,
    trace (snd (fetchEmails env accessToken emailAddress limit w))
    = trace w ++ added /\
    head (List.filter isNetworkCall added)
    = Some (EvImapConnect
              (imapConfig env (buildXOAuth2Token emailAddress accessToken)
                 emailAddress)) /\
    last (List.filter isNetworkCall added) = Some EvImapEnd.
Proof.
  intros Hc.
  cbv beta iota zeta delta [fetchEmails bind logger connect fetchFailed
    try_catch ret throw].
  rewrite Hc. cbv beta iota.
  match goal with
  | |- context [fetchSession _ ?c ?a ?l ?w0] =>
      destruct (fetchSession_run c a l w0) as (added & E & Hlast); rewrite E
  end.
  destruct (sessionResult env connection _) as [emails|e].
  - normalise_trace. eexists. split; [reflexivity|].
    rewrite !List.filter_app. cbn [List.filter isNetworkCall app].
    split; [reflexivity|].
    specialize (Hlast emails eq_refl).
    destruct (List.filter isNetworkCall added) as [|x l]; [discriminate|].
    exact Hlast.
  - cbv beta iota delta [connection_end].
    destruct (conn_end connection) as [[]|closeErr]; cbv beta iota;
      normalise_trace; (eexists; split; [reflexivity|]);
      rewrite !List.filter_app; cbn [List.filter isNetworkCall app];
      (split; [reflexivity|]);
      rewrite ?app_nil_r;
      change (?x :: ?l ++ [EvImapEnd]) with ((x :: l) ++ [EvImapEnd]);
      apply last_snoc.
Qed.

(** When [imaps.connect] rejects there is no connection: the connect is
    the only call made to the server. *)
Lemma fetchEmails_no_connection (accessToken emailAddress : jsstring)
    (limit : option Z) (w : World) (e : jsstring) :
  imaps_connect env
    (imapConfig env (buildXOAuth2Token emailAddress accessToken) emailAddress)
  = Throw e ->
  List.filter isNetworkCall
    (trace (snd (fetchEmails env accessToken emailAddress limit w)))
  = List.filter isNetworkCall (trace w)
    ++ [EvImapConnect
          (imapConfig env (buildXOAuth2Token emailAddress accessToken)
             emailAddress)].
Proof.
  intros Hc.
  cbv beta iota zeta delta [fetchEmails bind logger connect fetchFailed
    try_catch ret throw].
  rewrite Hc. cbv beta iota. cbn [snd trace emit].
  rewrite !List.filter_app. cbn [List.filter isNetworkCall app].
  now rewrite !app_nil_r.
Qed.

End MailboxReader.

(** ** The sync orchestrator and the stored-email query *)

Section EmailService.

Variable env : Env.

(** [saveEmailsToDatabase] never throws. *)
Lemma save_never_throws (emails : list EmailData) (userId : N) (w : World) :
  fst (saveEmailsToDatabase env emails userId w) = Ok tt.
Proof.
  cbv beta iota zeta delta [saveEmailsToDatabase try_catch bind logger].
  now destruct (saveLoop env emails userId 0 0 w) as [[counts|message] w'].
Qed.

(** A failure inside the loop ends in one log line. *)
Lemma save_failure_logged (emails : list EmailData) (userId : N)
    (w w' : World) (message : jsstring) :
  saveLoop env emails userId 0 0 w = (Throw message, w') ->
  saveEmailsToDatabase env emails userId w
  = (Ok tt, emit (cacheFailureLine userId message) w').
Proof.
  intros Hloop.
  cbv beta iota zeta delta [saveEmailsToDatabase try_catch bind logger].
  now rewrite Hloop.
Qed.

(** C3. In a sync whose account lookup, token refresh and message
    fetch succeed, [fetchUserEmails] returns the whole fetched list
    whatever happens to the merge; and when the store fails during the
    merge, all this adds to the world the merge stopped in is one error
    line in the log. *)
Theorem cache_failure_not_fatal (emailAddress : jsstring) (user : User)
    (freshAccessToken : jsstring) (emails : list EmailData)
    (w w1 w2 : World) :
  falsy emailAddress = false ->
  storedAccount emailAddress w = Some user ->
  refreshAccessToken env user (emit (EvDb (UserFindOne emailAddress)) w)
  = (Ok freshAccessToken, w1) ->
  fetchEmails env freshAccessToken emailAddress None
    (emit (fetchingLine emailAddress) w1)
  = (Ok emails, w2) ->
  fst (fetchUserEmails env emailAddress w) = Ok emails /\
  (forall (message : jsstring) (w3 : World),
      saveLoop env emails (user_id user) 0 0
        (emit (fetchedLine emailAddress (length emails)) w2)
      = (Throw message, w3) ->
      fetchUserEmails env emailAddress w
      = (Ok emails, emit (cacheFailureLine (user_id user) message) w3)).
Proof.
  intros Haddr Huser Hrefresh Hfetch.
  assert (Hrun : fetchUserEmails env emailAddress w
                 = (Ok emails,
                    snd (saveEmailsToDatabase env emails (user_id user)
                           (emit (fetchedLine emailAddress (length emails)) w2)))).
  { unfold fetchUserEmails. rewrite Haddr.
    unfold bind at 1. unfold User_findOne, db_read.
    unfold storedAccount in Huser. rewrite Huser.
    cbv beta iota zeta delta [try_catch bind logger ret].
    rewrite Hrefresh. fold (fetchingLine emailAddress). rewrite Hfetch.
    fold (fetchedLine emailAddress (length emails)).
    pose proof (save_never_throws emails (user_id user)
                  (emit (fetchedLine emailAddress (length emails)) w2)) as Hsave.
    destruct (saveEmailsToDatabase env emails (user_id user) _) as [r w4].
    cbn [fst] in Hsave. now rewrite Hsave. }
  split.
  - now rewrite Hrun.
  - intros message w3 Hloop. rewrite Hrun.
    now rewrite (save_failure_logged _ _ _ _ _ Hloop).
Qed.

(** [fetchUserEmails] starts with a guard: the empty string is no
    address and is turned away before the lookup. *)
Lemma fetchUserEmails_requires_address (w : World) :
  fetchUserEmails env [] w = (Throw errAddressRequired, w).
Proof. reflexivity. Qed.

(** C8. For every address with no stored account [fetchUserEmails]
    throws "User not found", and it does so before any network call: the
    run adds no call to the identity provider or the mail server to the
    trace, and leaves both tables as they are. *)
Theorem fetchUserEmails_unknown_account (emailAddress : jsstring) (w : World) :
  falsy emailAddress = false ->
  storedAccount emailAddress w = None ->
  let run := fetchUserEmails env emailAddress w in
  fst run = Throw errUserNotFound /\
  List.filter isNetworkCall (trace (snd run))
  = List.filter isNetworkCall (trace w) /\
  users (snd run) = users w /\ emails (snd run) = emails w.
Proof.
  intros Haddr Hnone run.
  assert (E : run = (Throw errUserNotFound,
                     emit (EvDb (UserFindOne emailAddress)) w)).
  { subst run. unfold fetchUserEmails. rewrite Haddr.
    cbv beta iota zeta delta [bind User_findOne db_read throw].
    fold (storedAccount emailAddress w). now rewrite Hnone. }
  rewrite E. cbn [fst snd trace emit users emails].
  split; [reflexivity|]. split; [|split; reflexivity].
  rewrite List.filter_app. cbn [List.filter isNetworkCall].
  now rewrite app_nil_r.
Qed.

Lemma trimStart_blank (s : jsstring) :
  forallb isWhiteSpace s = true -> trimStart s = [].
Proof.
  induction s as [|c s IH]; cbn [forallb trimStart]; [reflexivity|].
  intros [Hc Hs]%andb_prop. rewrite Hc. now apply IH.
Qed.

Lemma trim_blank (s : jsstring) : forallb isWhiteSpace s = true -> trim s = [].
Proof. intros Hs. unfold trim. now rewrite (trimStart_blank s Hs). Qed.

Lemma whereClause_blank (user : User) (s : jsstring) :
  forallb isWhiteSpace s = true -> whereClause user s = WUserId (user_id user).
Proof.
  intros Hs. unfold whereClause. rewrite (trim_blank s Hs).
  now rewrite andb_false_r.
Qed.

(** C10. A search string that is empty or all white space makes
    [getStoredEmails] build the same [where] object as no search option,
    the one that only names the owner, and return the same result: for a
    stored account, the requested page of the owner's rows in the
    requested order, with the count of the owner's rows. *)
Theorem blank_search_is_no_search (emailAddress : jsstring) (options : Options)
    (s : jsstring) (w : World) :
  forallb isWhiteSpace s = true ->
  fst (getStoredEmails env emailAddress (withSearch (Some s) options) w)
  = fst (getStoredEmails env emailAddress (withSearch None options) w) /\
  (forall user,
      whereClause user s = WUserId (user_id user) /\
      whereClause user (default [] (opt_search (withSearch None options)))
      = WUserId (user_id user)) /\
  (forall user,
      storedAccount emailAddress w = Some user ->
      exists result,
        fst (getStoredEmails env emailAddress (withSearch (Some s) options) w)
        = Ok result /\
        stored_emails result
        = take (Pos.to_nat (default 20%positive (opt_limit options)))
            (drop (N.to_nat
                     (Pos.pred_N (default 1%positive (opt_page options))
                      * Npos (default 20%positive (opt_limit options))))
               (db_sort env (default SortDate (opt_sortBy options))
                  (toUpperCase (default DESC (opt_sortOrder options)))
                  (List.filter (fun r => row_userId r =? user_id user)
                     (emails w)))) /\
        totalCount (pagination result)
        = length (List.filter (fun r => row_userId r =? user_id user)
                    (emails w))).
Proof.
  intros Hs.
  assert (Hrun : forall search : option jsstring,
    (forall user, whereClause user (default [] search) = WUserId (user_id user)) ->
    fst (getStoredEmails env emailAddress (withSearch search options) w)
    = match storedAccount emailAddress w with
      | None => Throw errUserNotFound
      | Some user =>
          let rows := List.filter (fun r => row_userId r =? user_id user) (emails w) in
          let limit := default 20%positive (opt_limit options) in
          let page := default 1%positive (opt_page options) in
          let pages := (N.of_nat (length rows) + Npos limit - 1) / Npos limit in
          Ok {| stored_emails :=
                  take (N.to_nat (Npos limit))
                    (drop (N.to_nat (Pos.pred_N page * Npos limit))
                       (db_sort env (default SortDate (opt_sortBy options))
                          (toUpperCase (default DESC (opt_sortOrder options)))
                          rows));
                pagination :=
                  {| currentPage := page; totalPages := pages;
                     totalCount := length rows; pg_limit := limit;
                     hasNextPage := Npos page <? pages;
                     hasPrevPage := (1 <? page)%positive |} |}
      end).
  { intros search Hwhere.
    cbv beta iota zeta delta [getStoredEmails bind User_findOne db_read
      Email_count Email_findAll logger ret throw].
    fold (storedAccount emailAddress w).
    destruct (storedAccount emailAddress w) as [user|]; [|reflexivity].
    cbn [withSearch opt_search opt_page opt_limit opt_sortBy opt_sortOrder].
    rewrite (Hwhere user). reflexivity. }
  assert (Hnone : forall user,
    whereClause user (default [] (opt_search (withSearch None options)))
    = WUserId (user_id user)) by reflexivity.
  split; [|split].
  - rewrite (Hrun (Some s)) by (intros user; now apply whereClause_blank).
    now rewrite (Hrun None).
  - intros user. split; [now apply whereClause_blank | apply Hnone].
  - rewrite (Hrun (Some s)) by (intros u; now apply whereClause_blank).
    intros user Huser. rewrite Huser. eexists. split; [reflexivity|]. split; reflexivity.
Qed.

End EmailService.

(* ===================================================================== *)
(** * The properties at work on the concrete mailbox *)
(* ===================================================================== *)

(** RFC 4648 test vectors for the base64 text. *)
Example base64_vectors :
  toString_base64 (Buffer_from (js "")) = js "" /\
  toString_base64 (Buffer_from (js "f")) = js "Zg==" /\
  toString_base64 (Buffer_from (js "fo")) = js "Zm8=" /\
  toString_base64 (Buffer_from (js "foo")) = js "Zm9v" /\
  toString_base64 (Buffer_from (js "foobar")) = js "Zm9vYmFy".
Proof. repeat split; reflexivity. Qed.

Example xoauth2_of_demo :
  buildXOAuth2Token demoAddress (js "tok")
  = js "dXNlcj1hQHguY29tAWF1dGg9QmVhcmVyIHRvawEB".
Proof. reflexivity. Qed.

(** Merging [demoEmail] twice into the empty table. *)
Lemma merge_twice_witness :
  countKey 7 1 (emails demoWorld) = 0%nat /\
  last (trace (snd (saveEmailsToDatabase demoEnv [demoEmail] 7 demoWorld)))
  = Some (savedReport 7 1 1 0) /\
  countKey 7 1
    (emails (snd (saveEmailsToDatabase demoEnv [demoEmail] 7
              (snd (saveEmailsToDatabase demoEnv [demoEmail] 7 demoWorld)))))
  = 1%nat.
Proof.
  pose proof (merge_twice_inserts_once demoEnv 7 demoEmail demoWorld
                eq_refl eq_refl eq_refl) as (H1 & _ & _ & H4 & _).
  split; [reflexivity|]. split; [exact H1 | exact H4].
Defined.

(** An account whose refresh token is missing. *)
Lemma refresh_without_refresh_token_witness :
  refreshAccessToken demoEnv
    {| user_id := 8; user_email := js "c@x.com";
       accessToken := Some (js "at1"); refreshToken := None |} demoWorld
  = (Throw errNoRefreshToken, demoWorld).
Proof.
  apply (refresh_without_refresh_token demoEnv
           {| user_id := 8; user_email := js "c@x.com";
              accessToken := Some (js "at1"); refreshToken := None |}
           demoWorld eq_refl).
Defined.

(** The scenario of the two answers: [at1] again, then [at2]. *)
Lemma refresh_persists_witness :
  (fst (refreshAccessToken sameTokenEnv demoUser demoWorld) = Ok (js "at1") /\
   users (snd (refreshAccessToken sameTokenEnv demoUser demoWorld))
   = users demoWorld) /\
  (fst (refreshAccessToken demoEnv demoUser demoWorld) = Ok (js "at2") /\
   storedToken 7 (snd (refreshAccessToken demoEnv demoUser demoWorld))
   = Some (Some (js "at2"))).
Proof.
  split.
  - destruct (refresh_persists_only_changes sameTokenEnv demoUser demoWorld
                (RespObject (Some (js "at1"))) (js "at1")
                eq_refl eq_refl eq_refl eq_refl) as [Hsame _].
    destruct (Hsame eq_refl) as (H1 & H2 & _). split; [exact H1 | exact H2].
  - destruct (refresh_persists_only_changes demoEnv demoUser demoWorld
                (RespObject (Some (js "at2"))) (js "at2")
                eq_refl eq_refl eq_refl eq_refl) as [_ Hdiff].
    assert (Hne : accessToken demoUser <> Some (js "at2")) by discriminate.
    destruct (Hdiff Hne) as (_ & Hret & Hok).
    pose proof (Hok eq_refl) as Hrun.
    split; [exact Hrun|].
    apply (Hret (js "at2") Hrun). discriminate.
Defined.

(** Two of the three messages with limit 2. *)
Lemma fetchEmails_at_most_limit_witness :
  exists emails,
    fst (fetchEmails demoEnv (js "at2") demoAddress (Some 2%Z) demoWorld)
    = Ok emails /\
    (length emails <= 2)%nat /\
    messageId <$> emails = [1; 2].
Proof.
  eexists. split; [vm_compute; reflexivity|].
  split; [|reflexivity].
  eapply (fetchEmails_at_most_limit demoEnv (js "at2") demoAddress (Some 2%Z)
            demoWorld).
  - vm_compute. discriminate.
  - vm_compute. reflexivity.
Defined.

(** The second message of the inbox does not parse and is kept. *)
Lemma parse_failure_keeps_message_witness :
  exists emails,
    fst (fetchEmails demoEnv (js "at2") demoAddress None demoWorld) = Ok emails /\
    length emails = 3%nat /\
    exists e, emails !! 1%nat = Some e /\ messageId e = 2 /\ body e = [] /\
              from e = js "bob@x.com" /\ subject e = js "hello" /\
              date e = DateNow.
Proof.
  destruct (parse_failure_keeps_message demoEnv (js "at2") demoAddress None
              demoWorld demoConnection demoInbox
              eq_refl eq_refl eq_refl eq_refl eq_refl)
    as (emails & Hrun & Hlen & Hkept).
  exists emails. split; [exact Hrun|]. split; [exact Hlen|].
  destruct (Hkept 1%nat (demoMessage 2 "bad") {| uid := 2 |}
              [ {| which := js "HEADER";
                   part_body := BodyHeader [js "bob@x.com"] [js "hello"] [] |};
                {| which := []; part_body := BodyText (js "bad") |} ]
              {| which := []; part_body := BodyText (js "bad") |}
              (js "boom") eq_refl eq_refl eq_refl eq_refl eq_refl eq_refl)
    as (e & He & Hid & Hbody & _ & _ & Hheader & _).
  destruct (Hheader [js "bob@x.com"] [js "hello"] [] eq_refl)
    as (Hfrom & Hsubject & Hdate).
  exists e. split; [exact He|]. split; [exact Hid|]. split; [exact Hbody|].
  split; [exact Hfrom|]. split; [exact Hsubject | exact Hdate].
Defined.

(** C2, as stated, fails on the inbox of three messages whose second
    body does not parse: three records come back, the second among
    them. *)
Lemma parse_failure_is_not_dropped :
  simpleParser demoEnv (BodyText (js "bad")) = Throw (js "boom") /\
  exists emails,
    fst (fetchEmails demoEnv (js "at2") demoAddress None demoWorld) = Ok emails /\
    length emails = 3%nat /\
    messageId <$> emails = [1; 2; 3].
Proof.
  split; [reflexivity|].
  eexists. split; [vm_compute; reflexivity|]. split; reflexivity.
Qed.

(** A failed search still closes the connection. *)
Lemma fetchEmails_closes_connection_witness :
  fst (fetchEmails brokenSearchEnv (js "at2") demoAddress None demoWorld)
  = Throw (js "timeout") /\
  exists added,
    trace (snd (fetchEmails brokenSearchEnv (js "at2") demoAddress None demoWorld))
    = trace demoWorld ++ added /\
    last (List.filter isNetworkCall added) = Some EvImapEnd.
Proof.
  split; [reflexivity|].
  destruct (fetchEmails_closes_connection brokenSearchEnv (js "at2") demoAddress
              None demoWorld _ eq_refl) as (added & Htrace & _ & Hlast).
  exists added. split; [exact Htrace | exact Hlast].
Defined.

(** The store rejects the merge; the three records are returned. *)
Lemma cache_failure_not_fatal_witness :
  exists emails,
    fst (fetchUserEmails failingStoreEnv demoAddress demoWorld) = Ok emails /\
    messageId <$> emails = [1; 2; 3] /\
    last (trace (snd (fetchUserEmails failingStoreEnv demoAddress demoWorld)))
    = Some (cacheFailureLine 7 (js "deadlock")).
Proof.
  pose (refreshed :=
          refreshAccessToken failingStoreEnv demoUser
            (emit (EvDb (UserFindOne demoAddress)) demoWorld)).
  pose (fetched :=
          fetchEmails failingStoreEnv (js "at2") demoAddress None
            (emit (fetchingLine demoAddress) (snd refreshed))).
  pose (emails := match fst fetched with Ok l => l | Throw _ => [] end).
  destruct (cache_failure_not_fatal failingStoreEnv demoAddress demoUser
              (js "at2") emails demoWorld (snd refreshed) (snd fetched))
    as [Hreturned Hlogged];
    [ reflexivity | reflexivity | vm_compute; reflexivity
      | vm_compute; reflexivity | ].
  exists emails. split; [exact Hreturned|]. split; [reflexivity|].
  erewrite Hlogged; [|vm_compute; reflexivity].
  cbn [snd trace emit]. apply last_snoc.
Defined.

(** An address nobody registered. *)
Lemma fetchUserEmails_unknown_account_witness :
  storedAccount (js "b@x.com") demoWorld = None /\
  fst (fetchUserEmails demoEnv (js "b@x.com") demoWorld) = Throw errUserNotFound /\
  List.filter isNetworkCall
    (trace (snd (fetchUserEmails demoEnv (js "b@x.com") demoWorld))) = [].
Proof.
  destruct (fetchUserEmails_unknown_account demoEnv (js "b@x.com") demoWorld
              eq_refl eq_refl) as (Hmissing & Hquiet & _).
  split; [reflexivity|]. split; [exact Hmissing | exact Hquiet].
Defined.

(** Searching for two spaces. *)
Lemma blank_search_witness :
  fst (getStoredEmails demoEnv demoAddress
         {| opt_page := None; opt_limit := None; opt_search := Some (js "  ");
            opt_sortBy := None; opt_sortOrder := None |} demoWorld)
  = fst (getStoredEmails demoEnv demoAddress
           {| opt_page := None; opt_limit := None; opt_search := None;
              opt_sortBy := None; opt_sortOrder := None |} demoWorld).
Proof.
  apply (blank_search_is_no_search demoEnv demoAddress
           {| opt_page := None; opt_limit := None; opt_search := None;
              opt_sortBy := None; opt_sortOrder := None |}
           (js "  ") demoWorld eq_refl).
Defined.

(* ===================================================================== *)
(** * Further properties of the services *)
(* ===================================================================== *)

(** ** Merging a batch *)

Section MergingBatches.

Variable env : Env.

(** The tables after [saveEmailsToDatabase] are those its loop leaves. *)
Lemma save_tables (batch : list EmailData) (userId : N) (w : World) :
  emails (snd (saveEmailsToDatabase env batch userId w))
  = emails (snd (saveLoop env batch userId 0 0 w)) /\
  users (snd (saveEmailsToDatabase env batch userId w))
  = users (snd (saveLoop env batch userId 0 0 w)).
Proof.
  cbv beta iota zeta delta [saveEmailsToDatabase try_catch bind logger].
  now destruct (saveLoop env batch userId 0 0 w) as [[counts|message] w'].
Qed.

Lemma saveLoop_users (batch : list EmailData) (userId : N)
    (saved skipped : N) (w : World) :
  users (snd (saveLoop env batch userId saved skipped w)) = users w.
Proof.
  revert saved skipped w.
  induction batch as [|email rest IH]; intros saved skipped w; [reflexivity|].
  cbn [saveLoop]. unfold bind.
  assert (Hstep : users (snd (Email_findOrCreate env userId email w)) = users w).
  { cbv beta iota zeta delta [Email_findOrCreate db_write].
    destruct (db_fault env (db_clock w)); [reflexivity|].
    now destruct (List.find _ _). }
  destruct (Email_findOrCreate env userId email w) as [[found|message] w1];
    cbn [snd] in Hstep |- *; [|exact Hstep].
  destruct (snd found); now rewrite IH.
Qed.

(** What the loop adds: rows of this owner, built from records of the
    batch. *)
Lemma saveLoop_added (batch : list EmailData) (userId : N)
    (saved skipped : N) (w : World) :
  exists added,
    emails (snd (saveLoop env batch userId saved skipped w))
    = emails w ++ added /\
    Forall (fun r => row_userId r = userId /\ In (row_email r) batch) added.
Proof.
  revert saved skipped w.
  induction batch as [|email rest IH]; intros saved skipped w.
  - exists []. cbn. now rewrite app_nil_r.
  - cbn [saveLoop]. unfold bind.
    pose proof (findOrCreate_table env userId email w) as Hstep.
    cbv zeta in Hstep.
    destruct (Email_findOrCreate env userId email w) as [[found|message] w1];
      cbn [fst snd] in Hstep |- *.
    + assert (Hwiden : forall added,
                Forall (fun r => row_userId r = userId /\ In (row_email r) rest)
                  added ->
                Forall (fun r => row_userId r = userId /\
                                 In (row_email r) (email :: rest)) added).
      { intros added Hrows. eapply Forall_impl; [exact Hrows|].
        intros r [? ?]. split; [|right]; easy. }
      assert (Hown : Forall (fun r => row_userId r = userId /\
                                      In (row_email r) (email :: rest))
                       [{| row_userId := userId; row_email := email |}])
        by (repeat constructor).
      destruct (snd found).
      * destruct (IH (saved + 1) skipped w1) as (added & Hadded & Hrows).
        destruct Hstep as [[Hsame _]|(_ & Hnew & _)]; rewrite Hadded.
        -- rewrite Hsame. eauto.
        -- rewrite Hnew, <- app_assoc. eexists. split; [reflexivity|].
           apply Forall_app. auto.
      * destruct (IH saved (skipped + 1) w1) as (added & Hadded & Hrows).
        destruct Hstep as [[Hsame _]|(_ & Hnew & _)]; rewrite Hadded.
        -- rewrite Hsame. eauto.
        -- rewrite Hnew, <- app_assoc. eexists. split; [reflexivity|].
           apply Forall_app. auto.
    + destruct Hstep as [[Hsame _]|(_ & _ & found & Hfound & _)];
        [|discriminate].
      exists []. rewrite app_nil_r. split; [exact Hsame | constructor].
Qed.

(** X1. Whatever the batch (repeated records included), the owner and
    the answers of the store, a table with at most one row per
    (owner, message id) has at most one row per key after the merge. *)
Theorem merge_keeps_keys_unique (batch : list EmailData) (userId : N)
    (w : World) :
  (forall u m, (countKey u m (emails w) <= 1)%nat) ->
  forall u m,
    (countKey u m (emails (snd (saveEmailsToDatabase env batch userId w)))
     <= 1)%nat.
Proof.
  intros Hunique u m.
  rewrite (proj1 (save_tables batch userId w)).
  now apply saveLoop_unique.
Qed.

(** X2. The merge only appends: the rows stored before are all still
    there, in place and unchanged; every row it adds belongs to the given
    owner and carries a record of the batch; the users table is not
    touched. *)
Theorem merge_only_appends (batch : list EmailData) (userId : N) (w : World) :
  exists added,
    emails (snd (saveEmailsToDatabase env batch userId w)) = emails w ++ added /\
    Forall (fun r => row_userId r = userId /\ In (row_email r) batch) added /\
    users (snd (saveEmailsToDatabase env batch userId w)) = users w.
Proof.
  destruct (save_tables batch userId w) as [Hemails Husers].
  destruct (saveLoop_added batch userId 0 0 w) as (added & Hadded & Hrows).
  exists added. rewrite Hemails, Husers, saveLoop_users. auto.
Qed.

End MergingBatches.

Section MergingWithoutFaults.

Variable env : Env.
Hypothesis store_accepts : forall k, db_fault env k = None.

Lemma findOrCreate_known (userId : N) (email : EmailData) (w : World) :
  (0 < countKey userId (messageId email) (emails w))%nat ->
  exists r w1,
    Email_findOrCreate env userId email w = (Ok (r, false), w1) /\
    emails w1 = emails w.
Proof.
  intros Hin. destruct (find_Some_of_count _ _ Hin) as [r Hr].
  cbv beta iota zeta delta [Email_findOrCreate db_write].
  rewrite store_accepts. cbn [emails tick emit]. rewrite Hr. eauto.
Qed.

Lemma findOrCreate_fresh (userId : N) (email : EmailData) (w : World) :
  countKey userId (messageId email) (emails w) = 0%nat ->
  exists w1,
    Email_findOrCreate env userId email w
    = (Ok ({| row_userId := userId; row_email := email |}, true), w1) /\
    emails w1 = emails w ++ [{| row_userId := userId; row_email := email |}].
Proof.
  intros Habs.
  cbv beta iota zeta delta [Email_findOrCreate db_write].
  rewrite store_accepts. cbn [emails tick emit].
  rewrite (find_None_of_count _ _ Habs). eauto.
Qed.

(** The loop with a store that accepts every call: it finishes, every
    record is counted once, the table grows by the number counted as
    saved, and every record's key is stored at the end. *)
Lemma saveLoop_finishes (batch : list EmailData) (userId : N)
    (saved skipped : N) (w : World) :
  exists saved' skipped' w',
    saveLoop env batch userId saved skipped w = (Ok (saved', skipped'), w') /\
    saved' + skipped' = saved + skipped + N.of_nat (length batch) /\
    N.of_nat (length (emails w')) + saved
    = N.of_nat (length (emails w)) + saved' /\
    (forall e, In e batch ->
       (0 < countKey userId (messageId e) (emails w'))%nat).
Proof.
  revert saved skipped w.
  induction batch as [|email rest IH]; intros saved skipped w.
  - exists saved, skipped, w. cbn. unfold ret. repeat split; try lia; try easy.
  - cbn [saveLoop]. unfold bind.
    assert (Hstays : forall w1 s k,
      (0 < countKey userId (messageId email) (emails w1))%nat ->
      (0 < countKey userId (messageId email)
             (emails (snd (saveLoop env rest userId s k w1))))%nat).
    { intros w1 s k Hin.
      destruct (saveLoop_appends env rest userId s k w1) as [added ->].
      rewrite countKey_app. lia. }
    destruct (Nat.eq_dec (countKey userId (messageId email) (emails w)) 0%nat)
      as [Habs|Hin].
    + destruct (findOrCreate_fresh userId email w Habs) as (w1 & -> & Hw1).
      cbn [snd].
      specialize (Hstays w1 (saved + 1) skipped).
      destruct (IH (saved + 1) skipped w1) as (s' & k' & w' & Hrun & Hsum & Hlen & Hkeys).
      rewrite Hrun in Hstays |- *.
      exists s', k', w'. cbn [snd] in Hstays.
      rewrite Hw1, length_app in Hlen. cbn [length] in Hlen |- *.
      repeat split; try lia.
      intros e [<-|He]; [|now apply Hkeys].
      apply Hstays. rewrite Hw1, countKey_app.
      unfold countKey at 2. cbn [List.filter]. rewrite hasKey_own. cbn. lia.
    + destruct (findOrCreate_known userId email w ltac:(lia)) as (r & w1 & -> & Hw1).
      cbn [snd].
      specialize (Hstays w1 saved (skipped + 1)).
      destruct (IH saved (skipped + 1) w1) as (s' & k' & w' & Hrun & Hsum & Hlen & Hkeys).
      rewrite Hrun in Hstays |- *.
      exists s', k', w'. cbn [snd] in Hstays.
      rewrite Hw1 in Hlen. cbn [length].
      repeat split; try lia.
      intros e [<-|He]; [|now apply Hkeys].
      apply Hstays. rewrite Hw1. lia.
Qed.

(** The loop over records whose keys are all stored: everything is
    skipped and the table stays as it is. *)
Lemma saveLoop_all_known (batch : list EmailData) (userId : N)
    (saved skipped : N) (w : World) :
  (forall e, In e batch ->
     (0 < countKey userId (messageId e) (emails w))%nat) ->
  exists w',
    saveLoop env batch userId saved skipped w
    = (Ok (saved, skipped + N.of_nat (length batch)), w') /\
    emails w' = emails w.
Proof.
  revert skipped w.
  induction batch as [|email rest IH]; intros skipped w Hknown.
  - exists w. cbn. unfold ret. now rewrite N.add_0_r.
  - cbn [saveLoop]. unfold bind.
    destruct (findOrCreate_known userId email w (Hknown email (or_introl eq_refl)))
      as (r & w1 & -> & Hw1).
    cbn [snd].
    destruct (IH (skipped + 1) w1) as (w' & -> & Hw').
    { intros e He. rewrite Hw1. apply Hknown. now right. }
    exists w'. split; [|now rewrite Hw', Hw1].
    do 2 f_equal. cbn [length]. f_equal. lia.
Qed.

Lemma save_report (batch : list EmailData) (userId : N) (w w' : World)
    (saved skipped : N) :
  saveLoop env batch userId 0 0 w = (Ok (saved, skipped), w') ->
  saveEmailsToDatabase env batch userId w
  = (Ok tt, emit (savedReport userId (length batch) saved skipped) w').
Proof.
  intros Hloop.
  cbv beta iota zeta delta [saveEmailsToDatabase try_catch bind].
  now rewrite Hloop.
Qed.

(** A key that is counted has a row. *)
Lemma row_of_key (userId mid : N) (rows : list EmailRow) :
  (0 < countKey userId mid rows)%nat ->
  exists r, In r rows /\ row_userId r = userId /\ messageId (row_email r) = mid.
Proof.
  intros Hcount. destruct (find_Some_of_count _ _ Hcount) as [r Hfind].
  apply List.find_some in Hfind as [Hin Hkey]. exists r. split; [exact Hin|].
  unfold hasKey in Hkey. apply andb_prop in Hkey as [Hu Hm].
  now apply N.eqb_eq in Hu, Hm.
Qed.

(** After the loop every record of the batch has a row under its key:
    one that was stored before, or one that carries a record of the
    batch. *)
Lemma saveLoop_rows (batch : list EmailData) (userId : N)
    (saved skipped : N) (w : World) (e : EmailData) :
  In e batch ->
  exists r,
    In r (emails (snd (saveLoop env batch userId saved skipped w))) /\
    row_userId r = userId /\ messageId (row_email r) = messageId e /\
    (In r (emails w) \/ In (row_email r) batch).
Proof.
  intros He.
  destruct (saveLoop_finishes batch userId saved skipped w)
    as (s' & k' & w' & Hrun & _ & _ & Hkeys).
  destruct (saveLoop_added env batch userId saved skipped w)
    as (added & Hadded & Hrows).
  rewrite Hrun in Hadded |- *. cbn [snd] in Hadded |- *.
  destruct (row_of_key _ _ _ (Hkeys e He)) as (r & Hin & Hu & Hm).
  exists r. split; [exact Hin|]. split; [exact Hu|]. split; [exact Hm|].
  rewrite Hadded in Hin. apply in_app_or in Hin as [Hold|Hnew]; [now left|].
  right. rewrite List.Forall_forall in Hrows. now apply Hrows.
Qed.

(** When the message ids of the batch are distinct, a record whose key
    was not stored is stored itself. *)
Lemma saveLoop_stores_fresh (batch : list EmailData) (userId : N)
    (saved skipped : N) (w : World) (e : EmailData) :
  List.NoDup (messageId <$> batch) ->
  In e batch ->
  countKey userId (messageId e) (emails w) = 0%nat ->
  In {| row_userId := userId; row_email := e |}
    (emails (snd (saveLoop env batch userId saved skipped w))).
Proof.
  revert saved skipped w.
  induction batch as [|email rest IH]; intros saved skipped w Hids He Hfresh;
    [destruct He|].
  cbn [fmap list_fmap] in Hids. apply List.NoDup_cons_iff in Hids as [Hhead Hrest].
  cbn [saveLoop]. unfold bind.
  destruct He as [->|He].
  - destruct (findOrCreate_fresh userId e w Hfresh) as (w1 & -> & Hw1).
    cbn [snd].
    destruct (saveLoop_appends env rest userId (saved + 1) skipped w1)
      as [added ->].
    rewrite Hw1. apply in_or_app. left. apply in_or_app. right. now left.
  - assert (Hother : messageId email <> messageId e).
    { intros Heq. apply Hhead. rewrite Heq. now apply List.in_map. }
    destruct (Nat.eq_dec (countKey userId (messageId email) (emails w)) 0%nat)
      as [Habs|Hin].
    + destruct (findOrCreate_fresh userId email w Habs) as (w1 & -> & Hw1).
      cbn [snd]. apply IH; [exact Hrest | exact He |].
      rewrite Hw1, countKey_app, Hfresh. unfold countKey, hasKey. cbn.
      destruct (N.eqb_spec (messageId email) (messageId e)); [contradiction|].
      now rewrite andb_false_r.
    + destruct (findOrCreate_known userId email w ltac:(lia))
        as (r & w1 & -> & Hw1).
      cbn [snd]. apply IH; [exact Hrest | exact He | now rewrite Hw1].
Qed.

(** X3. With a store that accepts every call, the merge of any batch
    ends with its report line, in which saved + skipped is the size of
    the batch, and the table has grown by exactly the number reported as
    saved.  Afterwards every record of the batch has a row under its key
    (userId, messageId): a row that was stored before (the first write
    wins, the stored content is kept) or a row that carries a record of
    the batch; and when the message ids of the batch are distinct, every
    record whose key was not stored before is stored itself. *)
Theorem merge_accounts_for_every_record (batch : list EmailData)
    (userId : N) (w : World) :
  exists saved skipped,
    last (trace (snd (saveEmailsToDatabase env batch userId w)))
    = Some (savedReport userId (length batch) saved skipped) /\
    saved + skipped = N.of_nat (length batch) /\
    N.of_nat (length (emails (snd (saveEmailsToDatabase env batch userId w))))
    = N.of_nat (length (emails w)) + saved /\
    (forall e, In e batch ->
       (0 < countKey userId (messageId e)
              (emails (snd (saveEmailsToDatabase env batch userId w))))%nat /\
       exists r,
         In r (emails (snd (saveEmailsToDatabase env batch userId w))) /\
         row_userId r = userId /\ messageId (row_email r) = messageId e /\
         (In r (emails w) \/ In (row_email r) batch)) /\
    (List.NoDup (messageId <$> batch) ->
     forall e, In e batch ->
       countKey userId (messageId e) (emails w) = 0%nat ->
       In {| row_userId := userId; row_email := e |}
         (emails (snd (saveEmailsToDatabase env batch userId w)))).
Proof.
  destruct (saveLoop_finishes batch userId 0 0 w)
    as (saved & skipped & w' & Hloop & Hsum & Hlen & Hkeys).
  exists saved, skipped.
  pose proof (saveLoop_rows batch userId 0 0 w) as Hrows.
  pose proof (saveLoop_stores_fresh batch userId 0 0 w) as Hfresh.
  rewrite (save_report _ _ _ _ _ _ Hloop).
  rewrite Hloop in Hrows, Hfresh. cbn [snd trace emit emails] in *.
  split; [apply last_snoc|]. split; [lia|]. split; [lia|]. split.
  - intros e He. split; [now apply Hkeys | now apply Hrows].
  - intros Hids e He Hnew. now apply Hfresh.
Qed.

(** X4. With a store that accepts every call, merging the same batch a
    second time changes no row and reports saved=0 and skipped=size of the
    batch. *)
Theorem merge_again_changes_nothing (batch : list EmailData) (userId : N)
    (w : World) :
  let once := snd (saveEmailsToDatabase env batch userId w) in
  let twice := snd (saveEmailsToDatabase env batch userId once) in
  emails twice = emails once /\
  last (trace twice)
  = Some (savedReport userId (length batch) 0 (N.of_nat (length batch))).
Proof.
  intros once twice.
  destruct (saveLoop_finishes batch userId 0 0 w)
    as (saved & skipped & w' & Hloop & _ & _ & Hkeys).
  assert (Honce : emails once = emails w').
  { subst once. now rewrite (save_report _ _ _ _ _ _ Hloop). }
  destruct (saveLoop_all_known batch userId 0 0 once) as (w'' & Hagain & Hsame).
  { intros e He. rewrite Honce. now apply Hkeys. }
  subst twice. rewrite (save_report _ _ _ _ _ _ Hagain).
  cbn [snd trace emit emails]. split; [exact Hsame | apply last_snoc].
Qed.

End MergingWithoutFaults.

(** ** Refreshing, beyond the token itself *)

Section RefreshOutcomes.

Variable env : Env.

Ltac run_refresh :=
  cbv beta iota zeta delta [refreshAccessToken bind try_catch logger
    setCredentials getAccessToken ret throw user_update db_write].

Ltac refresh_cases Hrt :=
  run_refresh; rewrite Hrt;
  cbn [client_credentials set_credentials emit db_clock];
  destruct (oauth_getAccessToken env _) as [[|s|[s|]]|cause];
  cbn [freshOf];
  repeat first
    [ progress cbn [fst snd users emails trace db_clock emit set_credentials
                    set_users tick]
    | match goal with
      | |- context [if falsy ?x then _ else _] => destruct (falsy x) eqn:?
      | |- context [bool_decide ?P] => destruct (bool_decide P) eqn:?
      | |- context [db_fault env ?k] => destruct (db_fault env k) eqn:?
      end ].

(** The users table after a refresh: as before, or with the access token
    of the rows of this account set. *)
Lemma refresh_tables (user : User) (w : World) :
  emails (snd (refreshAccessToken env user w)) = emails w /\
  (users (snd (refreshAccessToken env user w)) = users w \/
   exists t,
     users (snd (refreshAccessToken env user w))
     = (fun u => if user_id u =? user_id user then setAccessToken t u else u)
         <$> users w).
Proof.
  destruct (falsy_opt (refreshToken user)) eqn:Hrt.
  - unfold refreshAccessToken. rewrite Hrt. cbn. auto.
  - refresh_cases Hrt; (split; [reflexivity|]); eauto.
Qed.


(** X6. A refresh, whatever its outcome, leaves the emails table alone
    and changes nothing of the users table but access tokens: ids,
    addresses and refresh tokens stay row by row, and the rows of other
    accounts stay whole. *)
Theorem refresh_touches_only_access_tokens (user : User) (w : World) :
  let run := refreshAccessToken env user w in
  emails (snd run) = emails w /\
  (fun u => (user_id u, user_email u, refreshToken u)) <$> users (snd run)
  = (fun u => (user_id u, user_email u, refreshToken u)) <$> users w /\
  List.filter (fun u => negb (user_id u =? user_id user)) (users (snd run))
  = List.filter (fun u => negb (user_id u =? user_id user)) (users w).
Proof.
  intros run. subst run.
  destruct (refresh_tables user w) as [Hemails [Hsame|[t Hset]]].
  - now rewrite Hemails, Hsame.
  - rewrite Hemails, Hset. clear Hset. split; [reflexivity|]. split.
    + induction (users w) as [|u us IH]; [reflexivity|].
      rewrite !fmap_cons, IH. f_equal.
      now destruct (user_id u =? user_id user).
    + induction (users w) as [|u us IH]; [reflexivity|].
      rewrite fmap_cons. cbn [List.filter].
      destruct (user_id u =? user_id user) eqn:E; cbn [user_id setAccessToken];
        rewrite E; cbn [negb]; now rewrite IH.
Qed.

(** X7. A token the refresh returns is never empty, and it is the token
    the provider answered with for the credentials of this account (which
    then has a refresh token). *)
Theorem refresh_returns_the_provider_token (user : User) (w : World)
    (t : jsstring) :
  fst (refreshAccessToken env user w) = Ok t ->
  falsy t = false /\
  falsy_opt (refreshToken user) = false /\
  exists resp,
    oauth_getAccessToken env
      {| access_token := accessToken user;
         refresh_token := refreshToken user |} = Ok resp /\
    tokenOf resp = Some t.
Proof.
  destruct (falsy_opt (refreshToken user)) eqn:Hrt.
  - unfold refreshAccessToken. rewrite Hrt. discriminate.
  - run_refresh. rewrite Hrt.
    cbn [client_credentials set_credentials emit db_clock].
    destruct (oauth_getAccessToken env _) as [[|s|[s|]]|cause] eqn:Hresp;
      cbn [freshOf];
      repeat first
        [ progress cbn [fst snd]
        | match goal with
          | |- context [if falsy ?x then _ else _] => destruct (falsy x) eqn:?
          | |- context [bool_decide ?P] => destruct (bool_decide P) eqn:?
          | |- context [db_fault env ?k] => destruct (db_fault env k) eqn:?
          end ];
      intros Hret; try discriminate; injection Hret as <-;
      (split; [assumption|]); (split; [reflexivity|]); eauto.
Qed.

End RefreshOutcomes.

(** ** What a fetch does and does not do *)

Section FetchEffects.

Variable env : Env.

Ltac no_events := exists []; rewrite appendTrace_nil; split; [reflexivity | constructor].
Ltac one_event := eexists [_]; split; [reflexivity | repeat constructor].
Ltac flatten_trace := rewrite ?appendTrace_emit, ?appendTrace_twice.
Ltac session_only Q :=
  unfold sessionOnly in *;
  repeat first
    [ exact Q | apply List.Forall_nil
    | apply List.Forall_cons; [reflexivity|] | apply Forall_app_2 ].

Lemma processMessage_logs (message : Message) (w : World) :
  exists logs,
    snd (processMessage env message w) = appendTrace logs w /\ sessionOnly logs.
Proof.
  cbv beta iota zeta delta [processMessage try_catch bind readParts readUid
    ret throw logger simpleParser_call].
  destruct (parts message) as [ps|], (attributes message) as [a|]; cbv beta iota.
  - destruct (truthyBody (findPart [] ps)); cbv beta iota.
    + destruct (simpleParser env _) as [parsed|parseErr]; cbv beta iota.
      * no_events.
      * one_event.
    + no_events.
  - no_events.
  - one_event.
  - no_events.
Qed.

Lemma promiseAll_logs (messages : list Message) (w : World) :
  exists logs,
    snd (promiseAllMap (processMessage env) messages w) = appendTrace logs w /\
    sessionOnly logs.
Proof.
  revert w. induction messages as [|m ms IH]; intros w.
  - cbn. unfold ret. no_events.
  - destruct (processMessage_logs m w) as (l1 & E1 & Q1).
    cbn [promiseAllMap].
    destruct (processMessage env m w) as [r w1]. cbn [snd] in E1. subst w1.
    destruct (IH (appendTrace l1 w)) as (l2 & E2 & Q2).
    destruct (promiseAllMap (processMessage env) ms (appendTrace l1 w)) as [rs w2].
    cbn [snd] in E2 |- *. subst w2.
    exists (l1 ++ l2). rewrite appendTrace_twice. split; [reflexivity|].
    now apply Forall_app.
Qed.

(** Everything a session adds to the trace. *)
Lemma fetchSession_events (connection : Connection) (emailAddress : jsstring)
    (limit : Z) (w : World) :
  exists added,
    snd (fetchSession env connection emailAddress limit w) = appendTrace added w /\
    sessionOnly added.
Proof.
  cbv beta iota zeta delta [fetchSession bind openBox search connection_end
    logger ret].
  destruct (conn_openBox connection (js "INBOX")) as [[]|e]; cbv beta iota.
  2: { one_event. }
  destruct (conn_search connection _ _) as [messages|e]; cbv beta iota.
  2: { flatten_trace. eexists. split; [reflexivity | session_only I]. }
  match goal with
  | |- context [promiseAllMap _ ?ms ?w0] =>
      destruct (promiseAll_logs ms w0) as (logs & E & Q);
      destruct (promiseAllMap (processMessage env) ms w0) as [results w1];
      cbn [snd] in E; subst w1
  end.
  destruct results as [results|e]; cbv beta iota.
  2: { flatten_trace. eexists. split; [reflexivity | session_only Q]. }
  destruct (conn_end connection) as [[]|e]; cbv beta iota;
    flatten_trace; (eexists; split; [reflexivity | session_only Q]).
Qed.

(** Everything a fetch adds to the trace: the line announcing the
    connection, the connect, and then what a session does. *)
Lemma fetchEmails_events (accessToken emailAddress : jsstring)
    (limit : option Z) (w : World) :
  exists line rest,
    snd (fetchEmails env accessToken emailAddress limit w)
    = appendTrace
        (line
         :: EvImapConnect
              (imapConfig env (buildXOAuth2Token emailAddress accessToken)
                 emailAddress)
         :: rest) w /\
    sessionEvent line = true /\ sessionOnly rest.
Proof.
  cbv beta iota zeta delta [fetchEmails bind logger connect fetchFailed
    try_catch ret throw].
  destruct (imaps_connect env _) as [connection|e]; cbv beta iota.
  - match goal with
    | |- context [fetchSession _ ?c ?a ?l ?w0] =>
        destruct (fetchSession_events c a l w0) as (added & E & Q);
        destruct (fetchSession env c a l w0) as [r w1];
        cbn [snd] in E; subst w1
    end.
    destruct r as [emails|e].
    + flatten_trace. do 2 eexists. split; [reflexivity|]. split; [reflexivity|].
      exact Q.
    + cbv beta iota delta [connection_end].
      destruct (conn_end connection) as [[]|closeErr]; cbv beta iota;
        flatten_trace; (do 2 eexists; split; [reflexivity|]);
        (split; [reflexivity | session_only Q]).
  - flatten_trace. do 2 eexists. split; [reflexivity|]. split; [reflexivity|].
    session_only I.
Qed.

(** X8. A fetch never touches the store or the OAuth2 client: both
    tables, the store's clock and the client's credentials are as before,
    and none of the events it adds is a store call or a call to the
    identity provider. *)
Theorem fetchEmails_leaves_the_store_alone (accessToken emailAddress : jsstring)
    (limit : option Z) (w : World) :
  let after := snd (fetchEmails env accessToken emailAddress limit w) in
  users after = users w /\ emails after = emails w /\
  db_clock after = db_clock w /\
  client_credentials after = client_credentials w /\
  exists added,
    trace after = trace w ++ added /\
    Forall (fun e => isStoreCall e = false /\ isProviderCall e = false) added.
Proof.
  intros after. subst after.
  destruct (fetchEmails_events accessToken emailAddress limit w)
    as (line & rest & -> & Hline & Hrest).
  cbn [users emails db_clock client_credentials trace appendTrace].
  repeat split. eexists. split; [reflexivity|].
  assert (Hkind : forall e, sessionEvent e = true ->
                            isStoreCall e = false /\ isProviderCall e = false)
    by (intros []; cbn; intros; try discriminate; auto).
  apply List.Forall_cons; [apply (Hkind line Hline)|].
  apply List.Forall_cons; [split; reflexivity|].
  eapply Forall_impl; [exact Hrest | exact Hkind].
Qed.

(** X9. A fetch asks for one connection and no more, whatever happens
    next; on it, it opens nothing but the inbox and every search it sends
    is for all messages with markSeen off. *)
Theorem fetchEmails_connects_once_and_reads_only
    (accessToken emailAddress : jsstring) (limit : option Z) (w : World) :
  exists added,
    trace (snd (fetchEmails env accessToken emailAddress limit w))
    = trace w ++ added /\
    List.filter isConnect added
    = [EvImapConnect
         (imapConfig env (buildXOAuth2Token emailAddress accessToken)
            emailAddress)] /\
    Forall (fun e =>
              match e with
              | EvImapOpenBox box => box = js "INBOX"
              | EvImapSearch criteria options =>
                  criteria = [js "ALL"] /\ markSeen options = false
              | _ => True
              end) added.
Proof.
  destruct (fetchEmails_events accessToken emailAddress limit w)
    as (line & rest & -> & Hline & Hrest).
  cbn [trace appendTrace]. eexists. split; [reflexivity|].
  assert (Hread : forall e, sessionEvent e = true ->
            isConnect e = false /\
            match e with
            | EvImapOpenBox box => box = js "INBOX"
            | EvImapSearch criteria options =>
                criteria = [js "ALL"] /\ markSeen options = false
            | _ => True
            end).
  { intros []; cbn; intros H; try discriminate; split; try easy.
    - unfold jsstring_eqb in H. now apply bool_decide_eq_true in H.
    - apply andb_prop in H as [H1 H2]. apply bool_decide_eq_true in H1.
      split; [exact H1|]. now destruct (markSeen options). }
  split.
  - cbn [List.filter isConnect].
    destruct (Hread line Hline) as [-> _]. f_equal.
    clear -Hrest Hread. induction Hrest as [|e es He _ IH]; [reflexivity|].
    cbn [List.filter]. now destruct (Hread e He) as [-> _].
  - constructor; [apply (Hread line Hline)|]. constructor; [exact I|].
    eapply Forall_impl; [exact Hrest|]. intros e He. apply (Hread e He).
Qed.

Lemma recordOf_id (id : N) (ps : list Part) :
  messageId (recordOf env id ps) = id.
Proof.
  unfold recordOf.
  pose proof (withHeader_keeps (findPart (js "HEADER") ps)
                {| messageId := id; from := []; subject := []; date := DateNow;
                   body := []; bodyHtml := []; hasAttachments := Some false |})
    as [Hid _].
  destruct (truthyBody _); [|exact Hid].
  now destruct (simpleParser env _).
Qed.

Lemma keptRecord_uid (message : Message) :
  messageId <$> keptRecord env message = uidIfWellFormed message.
Proof.
  unfold keptRecord, messageOutcome, uidIfWellFormed.
  destruct (attributes message) as [a|], (parts message) as [ps|];
    try reflexivity.
  cbn. now rewrite recordOf_id.
Qed.

Lemma keptRecords_uids (messages : list Message) :
  messageId <$> omap (keptRecord env) messages = omap uidIfWellFormed messages.
Proof.
  induction messages as [|m ms IH]; [reflexivity|].
  cbn [omap list_omap]. rewrite <- (keptRecord_uid m).
  destruct (keptRecord env m); cbn; now rewrite IH.
Qed.

(** With attributes on every message, no callback rejects. *)
Lemma collect_with_attributes (messages : list Message) :
  forallb hasAttributes messages = true ->
  exists results, collect (messageOutcome env <$> messages) = Ok results.
Proof.
  induction messages as [|m ms IH]; cbn [forallb].
  - now exists [].
  - intros [Hm Hms]%andb_prop. destruct (IH Hms) as [results Hresults].
    rewrite fmap_cons. cbn [collect]. rewrite Hresults.
    unfold messageOutcome, hasAttributes in *.
    destruct (attributes m); [|discriminate].
    destruct (parts m); eauto.
Qed.

(** A message without attributes makes its callback reject, from inside
    its own error handler. *)
Lemma collect_without_attributes (messages : list Message) :
  forallb hasAttributes messages = false ->
  collect (messageOutcome env <$> messages) = Throw errReadUid.
Proof.
  induction messages as [|m ms IH]; cbn [forallb]; [discriminate|].
  rewrite fmap_cons. cbn [collect].
  unfold messageOutcome at 1. unfold hasAttributes at 1.
  destruct (attributes m) as [a|]; [|reflexivity].
  cbn [andb]. intros Hms. rewrite (IH Hms). now destruct (parts m).
Qed.

(** X10. When every fetched message carries its attributes and the
    session's own calls succeed, the fetch returns: a message that lacks
    its parts list is skipped without failing the batch, and the records
    returned are, in order, those of the messages that have one, each
    under the uid of its message. *)
Theorem fetchEmails_skips_messages_without_parts
    (accessToken emailAddress : jsstring) (limit : option Z) (w : World)
    (connection : Connection) (messages : list Message) :
  imaps_connect env
    (imapConfig env (buildXOAuth2Token emailAddress accessToken) emailAddress)
  = Ok connection ->
  conn_openBox connection (js "INBOX") = Ok tt ->
  conn_search connection [js "ALL"] searchOptions = Ok messages ->
  conn_end connection = Ok tt ->
  forallb hasAttributes (slice0 messages (default 50%Z limit)) = true ->
  exists emails,
    fst (fetchEmails env accessToken emailAddress limit w) = Ok emails /\
    emails = omap (keptRecord env) (slice0 messages (default 50%Z limit)) /\
    messageId <$> emails
    = omap uidIfWellFormed (slice0 messages (default 50%Z limit)).
Proof.
  intros Hc Ho Hs He Hattrs.
  destruct (collect_with_attributes _ Hattrs) as [results Hresults].
  eexists. split; [|split; [reflexivity | apply keptRecords_uids]].
  rewrite fetchEmails_result, Hc. unfold sessionResult.
  rewrite Ho, Hs, Hresults, He. f_equal. now apply collect_kept.
Qed.

(** X11. A fetched message without attributes fails the whole fetch:
    its callback's error handler reads [message.attributes.uid] itself, so
    the TypeError escapes [Promise.all] and [fetchEmails] throws it,
    whatever the other messages are. *)
Theorem fetchEmails_fails_on_message_without_attributes
    (accessToken emailAddress : jsstring) (limit : option Z) (w : World)
    (connection : Connection) (messages : list Message) :
  imaps_connect env
    (imapConfig env (buildXOAuth2Token emailAddress accessToken) emailAddress)
  = Ok connection ->
  conn_openBox connection (js "INBOX") = Ok tt ->
  conn_search connection [js "ALL"] searchOptions = Ok messages ->
  forallb hasAttributes (slice0 messages (default 50%Z limit)) = false ->
  fst (fetchEmails env accessToken emailAddress limit w) = Throw errReadUid.
Proof.
  intros Hc Ho Hs Hmissing.
  rewrite fetchEmails_result, Hc. unfold sessionResult.
  now rewrite Ho, Hs, (collect_without_attributes _ Hmissing).
Qed.

End FetchEffects.

(* ===================================================================== *)
(** ** The plain text of an HTML body *)
(* ===================================================================== *)

Section PlainText.

(** The fourth replacement of [htmlToText]. *)
Local Abbreviation collapse := (replaceAll matchSpaces (js " ") 0%nat).

(** The last three steps of [htmlToText]. *)
Local Abbreviation tidy x := (trim (collapse (replaceAll matchTag (js " ") 0%nat x))).

Lemma replaceAll_skip (f : jsstring -> option nat) (r : jsstring) (k : nat)
    (s : jsstring) :
  replaceAll f r k s = replaceAll f r 0 (drop k s).
Proof.
  revert k. induction s as [|c rest IH]; intros [|k]; try reflexivity.
  cbn [replaceAll drop]. apply IH.
Qed.

Lemma replaceAll_cons (f : jsstring -> option nat) (r : jsstring) (c : N)
    (rest : jsstring) :
  replaceAll f r 0 (c :: rest)
  = match f (c :: rest) with
    | Some (S n) => r ++ replaceAll f r 0 (drop n rest)
    | _ => c :: replaceAll f r 0 rest
    end.
Proof.
  cbn [replaceAll]. destruct (f (c :: rest)) as [[|n]|]; try reflexivity.
  now rewrite replaceAll_skip.
Qed.

Lemma matchSpaces_cons (c : N) (rest : jsstring) :
  matchSpaces (c :: rest)
  = if isWhiteSpace c then
      Some (S (match matchSpaces rest with Some n => n | None => O end))
    else None.
Proof. cbn [matchSpaces]. destruct (isWhiteSpace c); [|reflexivity]. now destruct (matchSpaces rest). Qed.

Lemma matchSpaces_run (s : jsstring) :
  startsClean (drop (match matchSpaces s with Some n => n | None => O end) s) = true.
Proof.
  induction s as [|c rest IH]; [reflexivity|].
  rewrite matchSpaces_cons. destruct (isWhiteSpace c) eqn:Hc.
  - exact IH.
  - cbn. now rewrite Hc.
Qed.


Lemma collapse_cons (c : N) (rest : jsstring) :
  collapse (c :: rest)
  = if isWhiteSpace c then
      32 :: collapse (drop (match matchSpaces rest with Some n => n | None => O end) rest)
    else c :: collapse rest.
Proof.
  rewrite replaceAll_cons, matchSpaces_cons.
  now destruct (isWhiteSpace c).
Qed.

Lemma collapse_startsClean (s : jsstring) :
  startsClean s = true -> startsClean (collapse s) = true.
Proof.
  destruct s as [|c rest]; [reflexivity|]. cbn [startsClean].
  rewrite collapse_cons. destruct (isWhiteSpace c) eqn:Hc; [discriminate|].
  intros _. cbn [startsClean]. now rewrite Hc.
Qed.

Lemma collapse_singleSpaced (s : jsstring) : singleSpaced (collapse s) = true.
Proof.
  remember (length s) as n eqn:Hn. revert s Hn.
  induction n as [n IH] using lt_wf_ind. intros [|c rest] Hn; [reflexivity|].
  rewrite collapse_cons. destruct (isWhiteSpace c) eqn:Hc.
  - cbn [singleSpaced]. rewrite (collapse_startsClean _ (matchSpaces_run rest)).
    rewrite (IH (length (drop (match matchSpaces rest with Some n => n | None => O end) rest)));
      [now rewrite orb_true_r | subst n; rewrite length_drop; cbn; lia | reflexivity].
  - cbn [singleSpaced]. rewrite Hc. cbn [negb orb andb].
    apply (IH (length rest)); [subst n; cbn; lia | reflexivity].
Qed.

Lemma singleSpaced_app (a b : jsstring) :
  singleSpaced (a ++ b) = true -> singleSpaced a = true /\ singleSpaced b = true.
Proof.
  induction a as [|c a IH]; [now split|].
  cbn [app singleSpaced]. intros [Hc Hrest]%andb_prop.
  destruct (IH Hrest) as [Ha Hb]. split; [|exact Hb]. rewrite Ha, andb_true_r.
  destruct (isWhiteSpace c); [|reflexivity]. cbn [negb orb] in *.
  apply andb_prop in Hc as [-> Hnext]. cbn [andb].
  destruct a as [|d a]; [reflexivity | exact Hnext].
Qed.

Lemma trimStart_suffix (s : jsstring) : exists pre, s = pre ++ trimStart s.
Proof.
  induction s as [|c rest [pre IH]]; [now exists []|].
  cbn [trimStart]. destruct (isWhiteSpace c).
  - exists (c :: pre). cbn. now rewrite <- IH.
  - now exists [].
Qed.

Lemma trimStart_clean (s : jsstring) : startsClean (trimStart s) = true.
Proof.
  induction s as [|c rest IH]; [reflexivity|].
  cbn [trimStart]. destruct (isWhiteSpace c) eqn:Hc; [exact IH|].
  cbn. now rewrite Hc.
Qed.

(** [trim] cuts a piece out of the middle. *)
Lemma trim_middle (s : jsstring) : exists pre post, s = pre ++ trim s ++ post.
Proof.
  destruct (trimStart_suffix s) as [pre Hpre].
  destruct (trimStart_suffix (rev (trimStart s))) as [post Hpost].
  exists pre, (rev post). unfold trim.
  rewrite <- rev_app_distr, <- Hpost, rev_involutive. exact Hpre.
Qed.






(** *** Tags *)

Lemma matchTag_cons (c : N) (r : jsstring) :
  matchTag (c :: r)
  = if c =? 60 then
      match findIndex (fun c => c =? 62) r with
      | Some (S k) => Some (S (S (S k)))
      | _ => None
      end
    else None.
Proof.
  destruct (N.eqb_spec c 60) as [->|Hc]; [reflexivity|].
  unfold matchTag. destruct c as [|p]; [reflexivity|].
  do 6 (try (destruct p as [p|p|]; try reflexivity)); congruence.
Qed.

Lemma tagFree_cons (c : N) (r : jsstring) :
  tagFree (c :: r) = true <-> matchTag (c :: r) = None /\ tagFree r = true.
Proof.
  cbn [tagFree]. destruct (matchTag (c :: r)); split; try tauto.
  - discriminate.
  - now intros [? _].
Qed.

Lemma tagFree_drop (k : nat) (s : jsstring) :
  tagFree s = true -> tagFree (drop k s) = true.
Proof.
  revert s. induction k as [|k IH]; intros [|c r]; try tauto.
  rewrite tagFree_cons. intros [_ Hr]. cbn [drop]. now apply IH.
Qed.

Lemma findIndex_replaceAll (f : jsstring -> option nat) (k : nat) (s : jsstring) :
  findIndex (fun c => c =? 62) s = None ->
  findIndex (fun c => c =? 62) (replaceAll f (js " ") k s) = None.
Proof.
  revert k. induction s as [|c r IH]; intros k; [reflexivity|].
  cbn [findIndex]. destruct (c =? 62) eqn:Hc; [discriminate|].
  intros Hr. assert (Hnone : findIndex (fun c => c =? 62) r = None).
  { now destruct (findIndex _ r). }
  cbn [replaceAll]. destruct k as [|k]; [|now apply IH].
  destruct (f (c :: r)) as [[|n]|]; cbn [findIndex app js]; rewrite ?Hc;
    try (now rewrite IH).
  change (js " ") with [32]. cbn [app findIndex].
  change (32 =? 62) with false. cbv iota. now rewrite IH.
Qed.

(** A '<' that opens no tag still opens none after the replacements. *)
Lemma matchTag_replaceAll (f : jsstring -> option nat) (c : N) (r : jsstring) :
  (forall t, f (62 :: t) = None) ->
  matchTag (c :: r) = None ->
  matchTag (c :: replaceAll f (js " ") 0 r) = None.
Proof.
  intros Hf. rewrite !matchTag_cons. destruct (c =? 60); [|reflexivity].
  destruct r as [|d r']; [reflexivity|].
  cbn [findIndex]. destruct (d =? 62) eqn:Hd.
  - apply N.eqb_eq in Hd as ->. rewrite replaceAll_cons, Hf. reflexivity.
  - destruct (findIndex (fun c => c =? 62) r') eqn:Hr; [discriminate|]. intros _.
    rewrite (findIndex_replaceAll f 0 (d :: r')); [reflexivity|].
    cbn [findIndex]. now rewrite Hd, Hr.
Qed.

Lemma replaceAll_tagFree (s : jsstring) :
  tagFree (replaceAll matchTag (js " ") 0 s) = true.
Proof.
  remember (length s) as n eqn:Hn. revert s Hn.
  induction n as [n IH] using lt_wf_ind. intros [|c rest] Hn; [reflexivity|].
  rewrite replaceAll_cons. destruct (matchTag (c :: rest)) as [[|k]|] eqn:Hm.
  - exfalso. rewrite matchTag_cons in Hm.
    destruct (c =? 60); [destruct (findIndex _ rest) as [[|]|]|]; discriminate.
  - change (js " ") with [32]. cbn [app]. apply tagFree_cons. split.
    + now rewrite matchTag_cons.
    + apply (IH (length (drop k rest))); [subst n; rewrite length_drop; cbn; lia | reflexivity].
  - apply tagFree_cons. split.
    + apply matchTag_replaceAll; [intros t; now rewrite matchTag_cons | exact Hm].
    + apply (IH (length rest)); [subst n; cbn; lia | reflexivity].
Qed.

Lemma matchSpaces_close (t : jsstring) : matchSpaces (62 :: t) = None.
Proof. reflexivity. Qed.

Lemma collapse_tagFree (s : jsstring) :
  tagFree s = true -> tagFree (collapse s) = true.
Proof.
  remember (length s) as n eqn:Hn. revert s Hn.
  induction n as [n IH] using lt_wf_ind. intros [|c rest] Hn; [reflexivity|].
  rewrite tagFree_cons. intros [Hm Hrest]. rewrite collapse_cons.
  destruct (isWhiteSpace c) eqn:Hc.
  - apply tagFree_cons. split; [now rewrite matchTag_cons|].
    apply (IH (length (drop (match matchSpaces rest with Some n => n | None => O end) rest)));
      [subst n; rewrite length_drop; cbn; lia | reflexivity | now apply tagFree_drop].
  - apply tagFree_cons. split.
    + apply matchTag_replaceAll; [exact matchSpaces_close | exact Hm].
    + apply (IH (length rest)); [subst n; cbn; lia | reflexivity | exact Hrest].
Qed.

Lemma findIndex_app_None (p : N -> bool) (a b : jsstring) :
  findIndex p (a ++ b) = None -> findIndex p a = None.
Proof.
  induction a as [|c a IH]; [reflexivity|].
  cbn [app findIndex]. destruct (p c); [discriminate|].
  destruct (findIndex p (a ++ b)); [discriminate|]. intros _. now rewrite IH.
Qed.

Lemma tagFree_app (a b : jsstring) :
  tagFree (a ++ b) = true -> tagFree a = true /\ tagFree b = true.
Proof.
  induction a as [|c a IH]; [now split|].
  cbn [app]. rewrite !tagFree_cons. intros [Hm Hrest].
  destruct (IH Hrest) as [Ha Hb]. split; [split|]; [|exact Ha|exact Hb].
  revert Hm. rewrite !matchTag_cons. destruct (c =? 60); [|reflexivity].
  destruct a as [|d a']; [reflexivity|]. cbn [app findIndex].
  destruct (d =? 62); [reflexivity|].
  destruct (findIndex (fun c => c =? 62) (a' ++ b)) eqn:Hr; [discriminate|].
  now rewrite (findIndex_app_None _ _ _ Hr).
Qed.


(** *** Text that is already plain *)
Lemma trimStart_id (s : jsstring) : startsClean s = true -> trimStart s = s.
Proof.
  destruct s as [|c r]; [reflexivity|]. cbn. now destruct (isWhiteSpace c).
Qed.

Lemma trim_id (s : jsstring) :
  startsClean s = true -> startsClean (rev s) = true -> trim s = s.
Proof.
  intros Hs Hr. unfold trim. rewrite (trimStart_id _ Hs), (trimStart_id _ Hr).
  apply rev_involutive.
Qed.

Lemma trim_clean (s : jsstring) :
  startsClean (trim s) = true /\ startsClean (rev (trim s)) = true.
Proof.
  unfold trim. rewrite rev_involutive. split; [|apply trimStart_clean].
  set (y := trimStart s).
  pose proof (trimStart_clean s) as Hy. fold y in Hy.
  destruct (trimStart_suffix (rev y)) as [pre Hpre].
  destruct (trimStart (rev y)) as [|d z] eqn:Ez; [reflexivity|].
  assert (E : y = rev (d :: z) ++ rev pre).
  { rewrite <- rev_app_distr, <- Hpre. symmetry. apply rev_involutive. }
  cbn [rev] in E |- *.
  pose proof (trimStart_clean (rev y)) as Hd. rewrite Ez in Hd.
  destruct (rev z) as [|e z']; [exact Hd|].
  rewrite E in Hy. exact Hy.
Qed.

Lemma collapse_id (s : jsstring) : singleSpaced s = true -> collapse s = s.
Proof.
  induction s as [|c rest IH]; [reflexivity|].
  cbn [singleSpaced]. intros [Hc Hrest]%andb_prop.
  rewrite collapse_cons. destruct (isWhiteSpace c) eqn:Hw.
  - cbn [negb orb] in Hc. apply andb_prop in Hc as [->%N.eqb_eq Hnext].
    replace (matchSpaces rest) with (@None nat).
    + rewrite drop_0. now rewrite IH.
    + destruct rest as [|d r]; [reflexivity|]. cbn in Hnext |- *.
      now destruct (isWhiteSpace d).
  - now rewrite IH.
Qed.

Lemma replaceAll_id (f : jsstring -> option nat) (repl s : jsstring) :
  (forall t, tagFree t = true -> f t = None) ->
  tagFree s = true -> replaceAll f repl 0 s = s.
Proof.
  intros Hf. induction s as [|c r IH]; [reflexivity|]. intros Hs.
  rewrite replaceAll_cons, (Hf _ Hs).
  apply tagFree_cons in Hs as [_ Hr]. now rewrite IH.
Qed.

Lemma tagFree_head (s : jsstring) : tagFree s = true -> matchTag s = None.
Proof. destruct s as [|c r]; [reflexivity|]. now intros [? _]%tagFree_cons. Qed.

Lemma findIndex_after (p : jsstring) (s : jsstring) (k : nat) :
  startsWith p s = true ->
  forallb (fun c => negb (c =? 62)) p = true ->
  findIndex (fun c => c =? 62) (drop (length p) s) = Some k ->
  findIndex (fun c => c =? 62) s = Some (length p + k)%nat.
Proof.
  revert s. induction p as [|a p IH]; intros s; [intros _ _; now rewrite drop_0|].
  destruct s as [|c r]; [discriminate|]. cbn [startsWith forallb length drop].
  intros [Ha Hp]%andb_prop [Hc Hall]%andb_prop Hk.
  apply N.eqb_eq in Ha as <-. cbn [findIndex].
  apply negb_true_iff in Hc. rewrite Hc, (IH r Hp Hall Hk). reflexivity.
Qed.

Lemma matchElement_tag (tag : string) (s : jsstring) (n : nat) :
  js tag <> [] ->
  forallb (fun c => negb (c =? 62)) (js tag) = true ->
  matchElement tag s = Some n -> matchTag s <> None.
Proof.
  intros Hne Hall. unfold matchElement.
  change (js "<" ++ js tag) with (60 :: js tag).
  destruct (startsWith (60 :: js tag) s) eqn:Hstart; [|discriminate].
  destruct (findIndex _ (drop (length (60 :: js tag)) s)) as [k|] eqn:Hk; [|discriminate].
  intros _. destruct s as [|c r]; [discriminate|].
  cbn [startsWith] in Hstart. apply andb_prop in Hstart as [Hc Hp].
  apply N.eqb_eq in Hc as <-. cbn [length drop] in Hk.
  rewrite matchTag_cons, (findIndex_after _ _ _ Hp Hall Hk). cbn [N.eqb Pos.eqb].
  destruct (js tag); [contradiction|]. discriminate.
Qed.

Lemma matchElement_tagFree (tag : string) (s : jsstring) :
  js tag <> [] ->
  forallb (fun c => negb (c =? 62)) (js tag) = true ->
  tagFree s = true -> matchElement tag s = None.
Proof.
  intros Hne Hall Hs. destruct (matchElement tag s) eqn:Hm; [|reflexivity].
  now destruct (matchElement_tag _ _ _ Hne Hall Hm (tagFree_head _ Hs)).
Qed.

Lemma tidy_singleSpaced (x : jsstring) : singleSpaced (tidy x) = true.
Proof.
  destruct (trim_middle (collapse (replaceAll matchTag (js " ") 0 x)))
    as (pre & post & Hx).
  pose proof (collapse_singleSpaced (replaceAll matchTag (js " ") 0 x)) as Hs.
  rewrite Hx in Hs. apply singleSpaced_app in Hs as [_ Hs].
  now apply singleSpaced_app in Hs as [Hs _].
Qed.

Lemma tidy_tagFree (x : jsstring) : tagFree (tidy x) = true.
Proof.
  destruct (trim_middle (collapse (replaceAll matchTag (js " ") 0 x)))
    as (pre & post & Hx).
  pose proof (collapse_tagFree _ (replaceAll_tagFree x)) as Hs.
  rewrite Hx in Hs. apply tagFree_app in Hs as [_ Hs].
  now apply tagFree_app in Hs as [Hs _].
Qed.

(** X12. The text [htmlToText] returns is white-space normalised: it
    neither starts nor ends with white space, and every white space code
    unit in it is a single space that is followed by none. *)
Theorem htmlToText_normalises_white_space (html : option jsstring) :
  startsClean (htmlToText html) = true /\
  startsClean (rev (htmlToText html)) = true /\
  singleSpaced (htmlToText html) = true.
Proof.
  unfold htmlToText. destruct (falsy_opt html); [now repeat split|].
  split; [apply trim_clean|]. split; [apply trim_clean | apply tidy_singleSpaced].
Qed.

(** X13. The text [htmlToText] returns holds no tag: the pattern
    [/<[^>]+>/] matches nowhere in it, so replacing the tags by spaces
    and collapsing the spaces has produced no new tag. *)
Theorem htmlToText_leaves_no_tag (html : option jsstring) :
  tagFree (htmlToText html) = true.
Proof.
  unfold htmlToText. destruct (falsy_opt html); [reflexivity | apply tidy_tagFree].
Qed.

(** X14. [htmlToText] is idempotent: applied to a text it has returned,
    it returns that text unchanged. *)
Theorem htmlToText_idempotent (html : option jsstring) :
  htmlToText (Some (htmlToText html)) = htmlToText html.
Proof.
  assert (Hshape : tagFree (htmlToText html) = true
                   /\ singleSpaced (htmlToText html) = true
                   /\ startsClean (htmlToText html) = true
                   /\ startsClean (rev (htmlToText html)) = true).
  { unfold htmlToText. destruct (falsy_opt html); [now repeat split|].
    split; [apply tidy_tagFree|]. split; [apply tidy_singleSpaced|].
    split; apply trim_clean. }
  destruct Hshape as (Htag & Hsp & Hhd & Hlast).
  set (t := htmlToText html) in *. unfold htmlToText at 1.
  destruct (falsy_opt (Some t)) eqn:Hf.
  - destruct t; [reflexivity | discriminate].
  - cbn [default]. unfold id.
    rewrite (replaceAll_id (matchElement "style"));
      [|intros u; now apply matchElement_tagFree|exact Htag].
    rewrite (replaceAll_id (matchElement "script"));
      [|intros u; now apply matchElement_tagFree|exact Htag].
    rewrite (replaceAll_id matchTag); [|exact tagFree_head|exact Htag].
    rewrite (collapse_id _ Hsp). now apply trim_id.
Qed.

End PlainText.

(* ===================================================================== *)
(** ** A sync from end to end *)
(* ===================================================================== *)

Section Syncing.

Variable env : Env.

Ltac run_refresh :=
  cbv beta iota zeta delta [refreshAccessToken bind try_catch logger
    setCredentials getAccessToken ret throw user_update db_write].

(** The stages of a sync for a stored account. *)
Lemma sync_stages (emailAddress : jsstring) (user : User) (w : World) :
  falsy emailAddress = false ->
  storedAccount emailAddress w = Some user ->
  fetchUserEmails env emailAddress w
  = match refreshAccessToken env user (emit (EvDb (UserFindOne emailAddress)) w) with
    | (Throw e, w1) =>
        (Throw (js "Failed to fetch emails: " ++ e),
         emit (syncFailureLine emailAddress e) w1)
    | (Ok fresh, w1) =>
        match fetchEmails env fresh emailAddress None
                (emit (fetchingLine emailAddress) w1) with
        | (Throw e, w2) =>
            (Throw (js "Failed to fetch emails: " ++ e),
             emit (syncFailureLine emailAddress e) w2)
        | (Ok emails, w2) =>
            (Ok emails,
             snd (saveEmailsToDatabase env emails (user_id user)
                    (emit (fetchedLine emailAddress (length emails)) w2)))
        end
    end.
Proof.
  intros Haddr Huser. unfold fetchUserEmails. rewrite Haddr.
  unfold bind at 1. unfold User_findOne, db_read.
  unfold storedAccount in Huser. rewrite Huser.
  cbv beta iota zeta delta [try_catch bind logger ret throw].
  destruct (refreshAccessToken env user _) as [[fresh|e] w1]; [|reflexivity].
  fold (fetchingLine emailAddress).
  destruct (fetchEmails env fresh emailAddress None _) as [[emails|e] w2];
    [|reflexivity].
  fold (fetchedLine emailAddress (length emails)).
  pose proof (save_never_throws env emails (user_id user)
                (emit (fetchedLine emailAddress (length emails)) w2)) as Hsave.
  destruct (saveEmailsToDatabase env emails (user_id user) _) as [r w4].
  cbn [fst] in Hsave. now rewrite Hsave.
Qed.

Ltac refresh_cases Hrt :=
  run_refresh; rewrite Hrt;
  cbn [client_credentials set_credentials emit db_clock];
  destruct (oauth_getAccessToken env _) as [[|s|[s|]]|cause];
  cbn [freshOf];
  repeat first
    [ progress cbn [fst snd users emails trace db_clock emit set_credentials
                    set_users tick]
    | match goal with
      | |- context [if falsy ?x then _ else _] => destruct (falsy x) eqn:?
      | |- context [bool_decide ?P] => destruct (bool_decide P) eqn:?
      | |- context [db_fault env ?k] => destruct (db_fault env k) eqn:?
      end ].

Lemma refresh_connects_nothing (user : User) (w : World) :
  List.filter isConnect (trace (snd (refreshAccessToken env user w)))
  = List.filter isConnect (trace w).
Proof.
  destruct (falsy_opt (refreshToken user)) eqn:Hrt.
  - unfold refreshAccessToken. now rewrite Hrt.
  - refresh_cases Hrt; rewrite ?List.filter_app; cbn [List.filter isConnect];
      now rewrite ?app_nil_r.
Qed.

Lemma saveLoop_connects_nothing (batch : list EmailData) (userId : N)
    (saved skipped : N) (w : World) :
  List.filter isConnect (trace (snd (saveLoop env batch userId saved skipped w)))
  = List.filter isConnect (trace w).
Proof.
  revert saved skipped w. induction batch as [|e rest IH]; intros saved skipped w;
    [reflexivity|].
  cbv beta iota zeta delta [saveLoop bind Email_findOrCreate db_write].
  fold (saveLoop env).
  destruct (db_fault env (db_clock w)).
  - cbn [snd trace tick emit]. rewrite List.filter_app. cbn. now rewrite app_nil_r.
  - destruct (List.find _ _); cbn [snd];
      rewrite IH; cbn [trace tick emit set_emails]; rewrite List.filter_app; cbn;
      now rewrite app_nil_r.
Qed.

Lemma save_connects_nothing (batch : list EmailData) (userId : N) (w : World) :
  List.filter isConnect (trace (snd (saveEmailsToDatabase env batch userId w)))
  = List.filter isConnect (trace w).
Proof.
  pose proof (saveLoop_connects_nothing batch userId 0 0 w) as Hloop.
  cbv beta iota zeta delta [saveEmailsToDatabase try_catch bind logger].
  destruct (saveLoop env batch userId 0 0 w) as [[counts|message] w'];
    cbn [snd trace emit] in *; rewrite List.filter_app; cbn;
    now rewrite app_nil_r.
Qed.

Lemma fetch_connects_once (accessToken emailAddress : jsstring)
    (limit : option Z) (w : World) :
  List.filter isConnect
    (trace (snd (fetchEmails env accessToken emailAddress limit w)))
  = List.filter isConnect (trace w)
    ++ [EvImapConnect
          (imapConfig env (buildXOAuth2Token emailAddress accessToken)
             emailAddress)].
Proof.
  destruct (fetchEmails_events env accessToken emailAddress limit w)
    as (line & rest & -> & Hline & Hrest).
  cbn [trace appendTrace]. rewrite List.filter_app. f_equal.
  assert (Hno : forall e, sessionEvent e = true -> isConnect e = false)
    by (now intros []).
  cbn [List.filter]. rewrite (Hno _ Hline). cbn [isConnect]. f_equal.
  induction Hrest as [|e es He _ IH]; [reflexivity|].
  cbn [List.filter]. now rewrite (Hno _ He).
Qed.

(** X15. A sync for a stored account asks the mail server for a
    connection exactly when the token refresh has succeeded, once, and
    the credential it presents is built from the address and the token
    the refresh returned. *)
Theorem sync_connects_with_the_fresh_token (emailAddress : jsstring)
    (user : User) (w : World) :
  falsy emailAddress = false ->
  storedAccount emailAddress w = Some user ->
  List.filter isConnect (trace (snd (fetchUserEmails env emailAddress w)))
  = List.filter isConnect (trace w)
    ++ match fst (refreshAccessToken env user
                    (emit (EvDb (UserFindOne emailAddress)) w)) with
       | Ok fresh =>
           [EvImapConnect
              (imapConfig env (buildXOAuth2Token emailAddress fresh) emailAddress)]
       | Throw _ => []
       end.
Proof.
  intros Haddr Huser. rewrite (sync_stages _ _ _ Haddr Huser).
  pose proof (refresh_connects_nothing user
                (emit (EvDb (UserFindOne emailAddress)) w)) as Hrefresh.
  destruct (refreshAccessToken env user _) as [[fresh|e] w1];
    cbn [fst snd] in Hrefresh |- *.
  - pose proof (fetch_connects_once fresh emailAddress None
                  (emit (fetchingLine emailAddress) w1)) as Hfetch.
    destruct (fetchEmails env fresh emailAddress None _) as [[emails|e] w2];
      cbn [fst snd] in Hfetch |- *.
    + rewrite save_connects_nothing. cbn [trace emit].
      rewrite List.filter_app, Hfetch. cbn [trace emit].
      rewrite List.filter_app, Hrefresh. cbn [trace emit].
      rewrite List.filter_app. cbn. now rewrite !app_nil_r.
    + cbn [trace emit]. rewrite List.filter_app, Hfetch. cbn [trace emit].
      rewrite List.filter_app, Hrefresh. cbn [trace emit].
      rewrite List.filter_app. cbn. now rewrite !app_nil_r.
  - cbn [trace emit]. rewrite List.filter_app, Hrefresh. cbn [trace emit].
    rewrite List.filter_app. cbn. now rewrite !app_nil_r.
Qed.

Lemma fetch_tables (accessToken emailAddress : jsstring) (limit : option Z)
    (w : World) :
  emails (snd (fetchEmails env accessToken emailAddress limit w)) = emails w.
Proof.
  now destruct (fetchEmails_events env accessToken emailAddress limit w)
    as (line & rest & -> & _).
Qed.

(** X16. For an address that is given and whose lookup has answered
    with the account, a sync that throws throws "Failed to fetch emails: "
    followed by the error of the token refresh or, after a refresh that
    succeeded, of the mail fetch; and it leaves the emails table as it
    was. *)
Theorem failed_sync_caches_nothing (emailAddress : jsstring) (user : User)
    (w : World) (message : jsstring) :
  falsy emailAddress = false ->
  storedAccount emailAddress w = Some user ->
  fst (fetchUserEmails env emailAddress w) = Throw message ->
  emails (snd (fetchUserEmails env emailAddress w)) = emails w /\
  exists cause,
    message = js "Failed to fetch emails: " ++ cause /\
    (fst (refreshAccessToken env user
            (emit (EvDb (UserFindOne emailAddress)) w)) = Throw cause \/
     exists fresh w1,
       refreshAccessToken env user (emit (EvDb (UserFindOne emailAddress)) w)
       = (Ok fresh, w1) /\
       fst (fetchEmails env fresh emailAddress None
              (emit (fetchingLine emailAddress) w1)) = Throw cause).
Proof.
  intros Haddr Huser. rewrite (sync_stages _ _ _ Haddr Huser).
  destruct (refresh_tables env user (emit (EvDb (UserFindOne emailAddress)) w))
    as [Hrefresh _].
  destruct (refreshAccessToken env user _) as [[fresh|e] w1];
    cbn [fst snd] in Hrefresh |- *.
  - pose proof (fetch_tables fresh emailAddress None
                  (emit (fetchingLine emailAddress) w1)) as Hfetch.
    destruct (fetchEmails env fresh emailAddress None _) as [[fetched|e] w2] eqn:Hrun;
      cbn [fst snd] in Hfetch |- *; [discriminate|].
    intros [= <-]. cbn [emails emit] in *. rewrite Hfetch, Hrefresh.
    split; [reflexivity|]. exists e. split; [reflexivity|].
    right. exists fresh, w1. split; [reflexivity|]. now rewrite Hrun.
  - intros [= <-]. cbn [emails emit] in *. rewrite Hrefresh.
    split; [reflexivity|]. exists e. split; [reflexivity|]. now left.
Qed.

End Syncing.

Section SyncingWithoutFaults.

Variable env : Env.
Hypothesis store_accepts : forall k, db_fault env k = None.

(** X17. When the store accepts every write, after a sync that returns
    every returned record has a row under the key (account id,
    messageId): a row that was cached before the sync (the first write
    wins) or a row that carries a returned record; and when the returned
    message ids are distinct, every returned record whose key was not
    cached before is in the table itself. *)
Theorem sync_caches_what_it_returns (emailAddress : jsstring) (w : World)
    (fetched : list EmailData) :
  fst (fetchUserEmails env emailAddress w) = Ok fetched ->
  exists user,
    storedAccount emailAddress w = Some user /\
    (forall e, In e fetched ->
       exists r,
         In r (emails (snd (fetchUserEmails env emailAddress w))) /\
         row_userId r = user_id user /\
         messageId (row_email r) = messageId e /\
         (In r (emails w) \/ In (row_email r) fetched)) /\
    (List.NoDup (messageId <$> fetched) ->
     forall e, In e fetched ->
       countKey (user_id user) (messageId e) (emails w) = 0%nat ->
       In {| row_userId := user_id user; row_email := e |}
         (emails (snd (fetchUserEmails env emailAddress w)))).
Proof.
  destruct (falsy emailAddress) eqn:Haddr.
  { unfold fetchUserEmails. now rewrite Haddr. }
  destruct (storedAccount emailAddress w) as [user|] eqn:Huser.
  2:{ unfold fetchUserEmails. rewrite Haddr.
      cbv beta iota zeta delta [bind User_findOne db_read throw].
      fold (storedAccount emailAddress w). now rewrite Huser. }
  rewrite (sync_stages env _ _ _ Haddr Huser).
  destruct (refresh_tables env user (emit (EvDb (UserFindOne emailAddress)) w))
    as [Hrefresh _].
  destruct (refreshAccessToken env user _) as [[fresh|e] w1]; [|discriminate].
  pose proof (fetch_tables env fresh emailAddress None
                (emit (fetchingLine emailAddress) w1)) as Hfetch.
  destruct (fetchEmails env fresh emailAddress None _) as [[records|e] w2];
    [|discriminate].
  cbn [fst snd] in *. intros [= ->]. exists user. split; [reflexivity|].
  set (w3 := emit (fetchedLine emailAddress (length fetched)) w2).
  assert (Hsame : emails w3 = emails w).
  { subst w3. cbn [emails emit] in *. now rewrite Hfetch, Hrefresh. }
  destruct (saveLoop_finishes env store_accepts fetched (user_id user) 0 0 w3)
    as (saved & skipped & w4 & Hloop & _).
  pose proof (saveLoop_rows env store_accepts fetched (user_id user) 0 0 w3)
    as Hrows.
  pose proof (saveLoop_stores_fresh env store_accepts fetched (user_id user)
                0 0 w3) as Hfresh.
  rewrite (save_report env _ _ _ _ _ _ Hloop).
  rewrite Hloop, Hsame in Hrows, Hfresh. cbn [snd emails emit] in *.
  split.
  - intros e He. now apply Hrows.
  - intros Hids e He Hnew. now apply Hfresh.
Qed.

End SyncingWithoutFaults.

(* ===================================================================== *)
(** ** The fetch handler *)
(* ===================================================================== *)

Section Answering.

Variable env : Env.

Lemma includes_app (needle pre s : jsstring) :
  includes needle s = true -> includes needle (pre ++ s) = true.
Proof.
  intros Hs. induction pre as [|c pre IH]; [exact Hs|].
  cbn [app includes]. rewrite IH. apply orb_true_r.
Qed.

Lemma fetch_default_bound (accessToken emailAddress : jsstring) (w : World)
    (fetched : list EmailData) :
  fst (fetchEmails env accessToken emailAddress None w) = Ok fetched ->
  (length fetched <= 50)%nat.
Proof.
  rewrite fetchEmails_result.
  destruct (imaps_connect env _) as [connection|e]; [|discriminate].
  unfold sessionResult.
  destruct (conn_openBox connection _) as [[]|e]; [|discriminate].
  destruct (conn_search connection _ _) as [messages|e]; [|discriminate].
  destruct (collect _) as [results|e] eqn:Hr; [|discriminate].
  destruct (conn_end connection) as [[]|e]; [|discriminate].
  intros [= <-]. rewrite (collect_kept _ _ _ Hr), slice0_take by easy.
  etransitivity; [apply omap_length_le|]. rewrite length_take. cbn. lia.
Qed.

Lemma sync_bound (emailAddress : jsstring) (w : World) (fetched : list EmailData) :
  fst (fetchUserEmails env emailAddress w) = Ok fetched ->
  (length fetched <= 50)%nat.
Proof.
  destruct (falsy emailAddress) eqn:Haddr.
  { unfold fetchUserEmails. now rewrite Haddr. }
  destruct (storedAccount emailAddress w) as [user|] eqn:Huser.
  2:{ unfold fetchUserEmails. rewrite Haddr.
      cbv beta iota zeta delta [bind User_findOne db_read throw].
      fold (storedAccount emailAddress w). now rewrite Huser. }
  rewrite (sync_stages env _ _ _ Haddr Huser).
  destruct (refreshAccessToken env user _) as [[fresh|e] w1]; [|discriminate].
  pose proof (fetch_default_bound fresh emailAddress
                (emit (fetchingLine emailAddress) w1)) as Hbound.
  destruct (fetchEmails env fresh emailAddress None _) as [[emails|e] w2];
    [|discriminate].
  cbn [fst snd] in *. intros [= <-]. now apply Hbound.
Qed.

(** X18. The fetch handler answers every request and never throws.
    It answers 400 "Missing email parameter" when no address is given;
    201 exactly with the records the service returned, their number as
    [count], which is at most 50; and otherwise 404 "User not found",
    401 "Authentication required" or 500 "Failed to fetch emails" as the
    service's error message contains "User not found",
    "re-authentication" or neither.  The [error] of a 404 and of a 401
    is the service's message; that of a 500 is "Internal server error"
    in production and the service's message elsewhere. *)
Theorem fetch_request_is_answered (email : option jsstring) (w : World) :
  exists response,
    fst (EmailController.fetchEmails env email w) = Ok response /\
    match res_json response with
    | Fetched _ count data =>
        res_status response = 201 /\ count = length data /\
        (length data <= 50)%nat /\
        fst (fetchUserEmails env (default [] email)
               (emit (requestLine (default [] email)) w)) = Ok data
    | Failure label cause =>
        (falsy_opt email = true /\ res_status response = 400 /\
         label = js "Missing email parameter" /\
         cause = js "Email address is required in query parameters") \/
        (falsy_opt email = false /\
         exists message,
           fst (fetchUserEmails env (default [] email)
                  (emit (requestLine (default [] email)) w)) = Throw message /\
           res_status response
           = (if includes (js "User not found") message then 404
              else if includes (js "re-authentication") message then 401
              else 500) /\
           label
           = (if includes (js "User not found") message
              then js "User not found"
              else if includes (js "re-authentication") message
              then js "Authentication required"
              else js "Failed to fetch emails") /\
           cause
           = (if (res_status response =? 500)
                 && bool_decide (NODE_ENV env = Some (js "production"))
              then js "Internal server error"
              else message))
    end.
Proof.
  destruct (falsy_opt email) eqn:Hgiven.
  - eexists.
    cbv beta iota zeta delta [EmailController.fetchEmails try_catch ret].
    rewrite Hgiven. split; [reflexivity|]. cbn. auto.
  - destruct email as [email|]; [|discriminate]. cbn [falsy_opt] in Hgiven.
    cbv beta iota zeta delta [EmailController.fetchEmails try_catch bind logger ret
      falsy_opt default from_option id].
    rewrite Hgiven. fold (requestLine email).
    pose proof (sync_bound email (emit (requestLine email) w)) as Hbound.
    destruct (fetchUserEmails env email _) as [[fetched|message] w1];
      cbn [fst] in Hbound |- *.
    + eexists. split; [reflexivity|]. cbn. auto.
    + destruct (includes (js "User not found") message) eqn:H404;
        [|destruct (includes (js "re-authentication") message) eqn:H401];
        (eexists; split; [reflexivity|]; cbn [res_json res_status];
         right; split; [reflexivity|]; exists message; rewrite H404, ?H401;
         split; [reflexivity|]; split; [reflexivity|]; split; [reflexivity|]).
      * reflexivity.
      * reflexivity.
      * cbn [N.eqb Pos.eqb andb].
        now destruct (bool_decide (NODE_ENV env = Some (js "production"))).
Qed.

(** X19. A fetch request for an address without a stored account is
    answered 404 "User not found"; no call leaves for the provider or
    the mail server and both tables stay as they are. *)
Theorem fetch_request_for_unknown_account (email : jsstring) (w : World) :
  falsy email = false ->
  storedAccount email w = None ->
  let run := EmailController.fetchEmails env (Some email) w in
  fst run
  = Ok {| res_status := 404;
          res_json := Failure (js "User not found") (js "User not found") |} /\
  List.filter isNetworkCall (trace (snd run))
  = List.filter isNetworkCall (trace w) /\
  users (snd run) = users w /\ emails (snd run) = emails w.
Proof.
  intros Haddr Hnone run. subst run.
  cbv beta iota zeta delta [EmailController.fetchEmails try_catch bind logger ret
    falsy_opt default from_option id fetchUserEmails User_findOne db_read throw].
  rewrite Haddr. cbn [users emit].
  fold (storedAccount email w). rewrite Hnone.
  change (includes (js "User not found") errUserNotFound) with true.
  cbn [fst snd trace emit users emails]. split; [reflexivity|].
  split; [|split; reflexivity].
  rewrite !List.filter_app. cbn. now rewrite !app_nil_r.
Qed.

(** X20. A fetch request for an account whose refresh token is missing
    is answered 401 "Authentication required"; no call leaves for the
    provider or the mail server and both tables stay as they are. *)
Theorem fetch_request_without_refresh_token (email : jsstring) (user : User)
    (w : World) :
  falsy email = false ->
  storedAccount email w = Some user ->
  falsy_opt (refreshToken user) = true ->
  let run := EmailController.fetchEmails env (Some email) w in
  fst run
  = Ok {| res_status := 401;
          res_json :=
            Failure (js "Authentication required")
              (js "Failed to fetch emails: " ++ errNoRefreshToken) |} /\
  List.filter isNetworkCall (trace (snd run))
  = List.filter isNetworkCall (trace w) /\
  users (snd run) = users w /\ emails (snd run) = emails w.
Proof.
  intros Haddr Huser Hrt run. subst run.
  cbv beta iota zeta delta [EmailController.fetchEmails try_catch bind logger ret
    falsy_opt default from_option id].
  rewrite Haddr. fold (requestLine email).
  assert (Hstored : storedAccount email (emit (requestLine email) w) = Some user)
    by exact Huser.
  rewrite (sync_stages env _ _ _ Haddr Hstored).
  unfold refreshAccessToken. cbn [falsy_opt] in Hrt |- *.
  fold (falsy_opt (refreshToken user)). rewrite Hrt. unfold throw.
  change (includes (js "User not found")
            (js "Failed to fetch emails: " ++ errNoRefreshToken)) with false.
  change (includes (js "re-authentication")
            (js "Failed to fetch emails: " ++ errNoRefreshToken)) with true.
  cbn [fst snd trace emit users emails]. split; [reflexivity|].
  split; [|split; reflexivity].
  rewrite !List.filter_app. cbn. now rewrite !app_nil_r.
Qed.

End Answering.

(* ===================================================================== *)
(** ** Pages of stored emails *)
(* ===================================================================== *)

Section StoredPages.

Variable env : Env.

(** The result of [getStoredEmails], without the world. *)
Lemma stored_result (emailAddress : jsstring) (options : Options) (w : World) :
  fst (getStoredEmails env emailAddress options w)
  = match storedAccount emailAddress w with
    | None => Throw errUserNotFound
    | Some user =>
        let rows :=
          List.filter
            (satisfies env (whereClause user (default [] (opt_search options))))
            (emails w) in
        let limit := default 20%positive (opt_limit options) in
        let page := default 1%positive (opt_page options) in
        let pages := (N.of_nat (length rows) + Npos limit - 1) / Npos limit in
        Ok {| stored_emails :=
                take (N.to_nat (Npos limit))
                  (drop (N.to_nat (Pos.pred_N page * Npos limit))
                     (db_sort env (default SortDate (opt_sortBy options))
                        (toUpperCase (default DESC (opt_sortOrder options)))
                        rows));
              pagination :=
                {| currentPage := page; totalPages := pages;
                   totalCount := length rows; pg_limit := limit;
                   hasNextPage := Npos page <? pages;
                   hasPrevPage := (1 <? page)%positive |} |}
    end.
Proof.
  cbv beta iota zeta delta [getStoredEmails bind User_findOne db_read
    Email_count Email_findAll logger ret throw].
  fold (storedAccount emailAddress w).
  now destruct (storedAccount emailAddress w) as [user|].
Qed.

Lemma ceil_least (total limit : N) :
  0 < limit ->
  let pages := (total + limit - 1) / limit in
  total <= pages * limit /\ forall n, total <= n * limit -> pages <= n.
Proof.
  intros Hl pages. subst pages. split.
  - pose proof (N.mod_upper_bound (total + limit - 1) limit ltac:(lia)).
    pose proof (N.div_mod (total + limit - 1) limit ltac:(lia)). nia.
  - intros n Hn. apply N.lt_succ_r. apply N.Div0.div_lt_upper_bound. nia.
Qed.

Lemma ceil_next (total limit page : N) :
  0 < limit ->
  (page <? (total + limit - 1) / limit) = true <-> page * limit < total.
Proof.
  intros Hl. rewrite N.ltb_lt. split.
  - intros Hp. destruct (N.lt_ge_cases (page * limit) total) as [|Hge]; [easy|].
    destruct (ceil_least total limit Hl) as [_ Hleast].
    specialize (Hleast page Hge). lia.
  - intros Hp. destruct (ceil_least total limit Hl) as [Hhold _].
    destruct (N.lt_ge_cases page ((total + limit - 1) / limit)) as [|Hge]; [easy|].
    nia.
Qed.

(** X21. With an ORDER BY that keeps the number of rows, a page of
    [getStoredEmails] holds [limit] rows or what remains of the matching
    rows after the pages before it; [hasNextPage] is true exactly when
    rows remain after this page, [hasPrevPage] exactly after page 1, and
    [totalPages] is the least number of pages that hold all rows. *)
Theorem stored_page_arithmetic (emailAddress : jsstring) (options : Options)
    (w : World) (result : StoredEmails) :
  (forall by_ order rows, length (db_sort env by_ order rows) = length rows) ->
  fst (getStoredEmails env emailAddress options w) = Ok result ->
  let page := Npos (default 1%positive (opt_page options)) in
  let limit := Npos (default 20%positive (opt_limit options)) in
  let total := N.of_nat (totalCount (pagination result)) in
  let pages := totalPages (pagination result) in
  N.of_nat (length (stored_emails result)) = N.min limit (total - (page - 1) * limit) /\
  (hasNextPage (pagination result) = true <-> page * limit < total) /\
  (hasPrevPage (pagination result) = true <-> 1 < page) /\
  total <= pages * limit /\
  (forall n, total <= n * limit -> pages <= n).
Proof.
  intros Hsort. rewrite stored_result.
  destruct (storedAccount emailAddress w) as [user|]; [|discriminate].
  cbv zeta. intros [= <-].
  cbn [stored_emails pagination totalCount totalPages hasNextPage hasPrevPage].
  set (limit := default 20%positive (opt_limit options)).
  set (page := default 1%positive (opt_page options)).
  set (rows := List.filter _ (emails w)).
  split; [|split; [|split]].
  - rewrite length_take, length_drop, Hsort. rewrite N.pos_pred_spec. lia.
  - apply ceil_next. lia.
  - rewrite Pos.ltb_lt. lia.
  - apply ceil_least. lia.
Qed.

Lemma in_take {A} (x : A) (n : nat) (l : list A) : In x (take n l) -> In x l.
Proof. intros Hx. rewrite <- (take_drop n l). apply in_or_app. now left. Qed.

Lemma in_drop {A} (x : A) (n : nat) (l : list A) : In x (drop n l) -> In x l.
Proof. intros Hx. rewrite <- (take_drop n l). apply in_or_app. now right. Qed.

Lemma whereClause_owner (user : User) (search : jsstring) (r : EmailRow) :
  satisfies env (whereClause user search) r = true ->
  row_userId r = user_id user /\
  (falsy (trim search) = false ->
   db_like env (js "%" ++ search ++ js "%") (from (row_email r))
   || db_like env (js "%" ++ search ++ js "%") (subject (row_email r)) = true).
Proof.
  unfold whereClause. destruct (falsy (trim search)) eqn:Hblank.
  - rewrite andb_false_r. cbn. intros ->%N.eqb_eq. now split.
  - destruct (falsy search) eqn:Hempty.
    + destruct search; [discriminate Hblank | discriminate Hempty].
    + cbn. rewrite !andb_true_r, orb_false_r.
      intros [->%N.eqb_eq Hlike]%andb_prop. now split.
Qed.

(** X22. With an ORDER BY that permutes its rows, every row that
    [getStoredEmails] returns is a stored row of the account with the
    given address, and, when the search term is not blank, one whose
    sender or subject the store's LIKE matches against [%term%]. *)
Theorem stored_emails_belong_to_the_account (emailAddress : jsstring)
    (options : Options) (w : World) (result : StoredEmails) :
  (forall by_ order rows, Permutation (db_sort env by_ order rows) rows) ->
  fst (getStoredEmails env emailAddress options w) = Ok result ->
  exists user,
    In user (users w) /\ user_email user = emailAddress /\
    Forall (fun r =>
              In r (emails w) /\ row_userId r = user_id user /\
              let search := default [] (opt_search options) in
              (falsy (trim search) = false ->
               db_like env (js "%" ++ search ++ js "%") (from (row_email r))
               || db_like env (js "%" ++ search ++ js "%") (subject (row_email r))
               = true))
      (stored_emails result).
Proof.
  intros Hsort. rewrite stored_result.
  destruct (storedAccount emailAddress w) as [user|] eqn:Huser; [|discriminate].
  cbv zeta. intros [= <-]. exists user.
  apply List.find_some in Huser as [Hin Heq].
  unfold jsstring_eqb in Heq. apply bool_decide_eq_true in Heq.
  split; [exact Hin|]. split; [exact Heq|].
  cbn [stored_emails]. apply List.Forall_forall. intros r Hr.
  apply in_take, in_drop in Hr.
  apply (Permutation_in _ (Hsort _ _ _)), List.filter_In in Hr as [Hr Hsat].
  split; [exact Hr|]. now apply whereClause_owner.
Qed.

End StoredPages.

(* ===================================================================== *)
(** * The further properties at work on the concrete mailbox *)
(* ===================================================================== *)

(** The same record twice in one batch, into the empty table. *)
Lemma merge_keeps_keys_unique_witness :
  (countKey 7 1
     (emails (snd (saveEmailsToDatabase demoEnv [demoEmail; demoEmail] 7
                     demoWorld))) <= 1)%nat.
Proof.
  apply (merge_keeps_keys_unique demoEnv [demoEmail; demoEmail] 7 demoWorld).
  intros u m. cbn. lia.
Defined.

Lemma merge_accounts_for_every_record_witness :
  exists saved skipped,
    last (trace (snd (saveEmailsToDatabase demoEnv [demoEmail; demoEmail] 7
                        demoWorld)))
    = Some (savedReport 7 2 saved skipped) /\
    saved + skipped = 2 /\
    exists r,
      In r (emails (snd (saveEmailsToDatabase demoEnv [demoEmail; demoEmail] 7
                           demoWorld))) /\
      row_userId r = 7 /\ messageId (row_email r) = 1.
Proof.
  destruct (merge_accounts_for_every_record demoEnv (fun _ => eq_refl)
              [demoEmail; demoEmail] 7 demoWorld)
    as (saved & skipped & Hline & Hsum & _ & Hrows & _).
  destruct (Hrows demoEmail (or_introl eq_refl))
    as (_ & r & Hin & Hu & Hm & _).
  exists saved, skipped. split; [exact Hline|]. split; [exact Hsum|].
  exists r. split; [exact Hin|]. split; [exact Hu | exact Hm].
Defined.

Lemma merge_again_changes_nothing_witness :
  emails (snd (saveEmailsToDatabase demoEnv [demoEmail] 7
                 (snd (saveEmailsToDatabase demoEnv [demoEmail] 7 demoWorld))))
  = emails (snd (saveEmailsToDatabase demoEnv [demoEmail] 7 demoWorld)).
Proof.
  exact (proj1 (merge_again_changes_nothing demoEnv (fun _ => eq_refl)
                  [demoEmail] 7 demoWorld)).
Defined.


Lemma refresh_returns_the_provider_token_witness :
  falsy (js "at2") = false /\
  exists resp,
    oauth_getAccessToken demoEnv
      {| access_token := accessToken demoUser;
         refresh_token := refreshToken demoUser |} = Ok resp /\
    tokenOf resp = Some (js "at2").
Proof.
  destruct (refresh_returns_the_provider_token demoEnv demoUser demoWorld
              (js "at2") ltac:(vm_compute; reflexivity))
    as (Hfull & _ & Hresp).
  split; [exact Hfull | exact Hresp].
Defined.

(** The second of three messages comes without its parts. *)
Lemma fetchEmails_skips_messages_without_parts_witness :
  exists fetched,
    fst (fetchEmails partlessEnv (js "at2") demoAddress None demoWorld)
    = Ok fetched /\
    messageId <$> fetched = [1; 3].
Proof.
  destruct (fetchEmails_skips_messages_without_parts partlessEnv (js "at2")
              demoAddress None demoWorld _ _
              eq_refl eq_refl eq_refl eq_refl eq_refl)
    as (fetched & Hrun & _ & Hids).
  exists fetched. split; [exact Hrun | exact Hids].
Defined.

(** The second of two messages comes without its attributes. *)
Lemma fetchEmails_fails_on_message_without_attributes_witness :
  fst (fetchEmails bareEnv (js "at2") demoAddress None demoWorld)
  = Throw errReadUid.
Proof.
  apply (fetchEmails_fails_on_message_without_attributes bareEnv (js "at2")
           demoAddress None demoWorld _ _ eq_refl eq_refl eq_refl eq_refl).
Defined.

(** The sync of the demo account connects with [at2], not the stored
    [at1]. *)
Lemma sync_connects_with_the_fresh_token_witness :
  List.filter isConnect
    (trace (snd (fetchUserEmails demoEnv demoAddress demoWorld)))
  = [EvImapConnect
       (imapConfig demoEnv (buildXOAuth2Token demoAddress (js "at2"))
          demoAddress)].
Proof.
  exact (sync_connects_with_the_fresh_token demoEnv demoAddress demoUser
           demoWorld eq_refl eq_refl).
Defined.

(** The search fails during the sync. *)
Lemma failed_sync_caches_nothing_witness :
  fst (fetchUserEmails brokenSearchEnv demoAddress demoWorld)
  = Throw (js "Failed to fetch emails: timeout") /\
  emails (snd (fetchUserEmails brokenSearchEnv demoAddress demoWorld))
  = emails demoWorld.
Proof.
  assert (Hrun : fst (fetchUserEmails brokenSearchEnv demoAddress demoWorld)
                 = Throw (js "Failed to fetch emails: timeout"))
    by (vm_compute; reflexivity).
  split; [exact Hrun|].
  exact (proj1 (failed_sync_caches_nothing brokenSearchEnv demoAddress demoUser
                  demoWorld _ eq_refl eq_refl Hrun)).
Defined.

(** After the sync of the demo account its three messages are cached
    as they were returned. *)
Lemma sync_caches_what_it_returns_witness :
  exists fetched,
    fst (fetchUserEmails demoEnv demoAddress demoWorld) = Ok fetched /\
    messageId <$> fetched = [1; 2; 3] /\
    Forall (fun e =>
              In {| row_userId := 7; row_email := e |}
                (emails (snd (fetchUserEmails demoEnv demoAddress demoWorld))))
      fetched.
Proof.
  pose (fetched :=
          match fst (fetchUserEmails demoEnv demoAddress demoWorld) with
          | Ok l => l
          | Throw _ => []
          end).
  exists fetched.
  assert (Hrun : fst (fetchUserEmails demoEnv demoAddress demoWorld) = Ok fetched)
    by (vm_compute; reflexivity).
  split; [exact Hrun|]. split; [vm_compute; reflexivity|].
  destruct (sync_caches_what_it_returns demoEnv (fun _ => eq_refl) demoAddress
              demoWorld fetched Hrun)
    as (user & Huser & _ & Hstored).
  injection Huser as <-.
  apply List.Forall_forall. intros e He.
  apply (Hstored ltac:(vm_compute; repeat constructor; cbn; intuition discriminate)
           e He eq_refl).
Defined.

(** Nobody registered [b@x.com]. *)
Lemma fetch_request_for_unknown_account_witness :
  fst (EmailController.fetchEmails demoEnv (Some (js "b@x.com")) demoWorld)
  = Ok {| res_status := 404;
          res_json := Failure (js "User not found") (js "User not found") |} /\
  List.filter isNetworkCall
    (trace (snd (EmailController.fetchEmails demoEnv (Some (js "b@x.com"))
                   demoWorld))) = [].
Proof.
  destruct (fetch_request_for_unknown_account demoEnv (js "b@x.com") demoWorld
              eq_refl eq_refl) as (Hanswer & Hquiet & _).
  split; [exact Hanswer | exact Hquiet].
Defined.

(** The account [c@x.com] has no refresh token. *)
Lemma fetch_request_without_refresh_token_witness :
  fst (EmailController.fetchEmails demoEnv (Some (js "c@x.com")) cachedWorld)
  = Ok {| res_status := 401;
          res_json :=
            Failure (js "Authentication required")
              (js "Failed to fetch emails: " ++ errNoRefreshToken) |} /\
  List.filter isNetworkCall
    (trace (snd (EmailController.fetchEmails demoEnv (Some (js "c@x.com"))
                   cachedWorld))) = [].
Proof.
  destruct (fetch_request_without_refresh_token demoEnv (js "c@x.com")
              lapsedUser cachedWorld eq_refl eq_refl eq_refl)
    as (Hanswer & Hquiet & _).
  split; [exact Hanswer | exact Hquiet].
Defined.

(** Page 2 of the five cached messages, two to a page. *)
Lemma stored_page_arithmetic_witness :
  exists result,
    fst (getStoredEmails demoEnv demoAddress (pagesOfTwo 2) cachedWorld)
    = Ok result /\
    N.of_nat (length (stored_emails result)) = 2 /\
    (hasNextPage (pagination result) = true <-> 2 * 2 < 5) /\
    5 <= totalPages (pagination result) * 2.
Proof.
  eexists. split; [vm_compute; reflexivity|].
  destruct (stored_page_arithmetic demoEnv demoAddress (pagesOfTwo 2) cachedWorld
              _ (fun _ _ _ => eq_refl) eq_refl)
    as (Hsize & Hnext & _ & Hpages & _).
  split; [exact Hsize|]. split; [exact Hnext | exact Hpages].
Defined.

Lemma stored_emails_belong_to_the_account_witness :
  exists result,
    fst (getStoredEmails demoEnv demoAddress (pagesOfTwo 2) cachedWorld)
    = Ok result /\
    Forall (fun r => row_userId r = 7) (stored_emails result).
Proof.
  eexists. split; [vm_compute; reflexivity|].
  destruct (stored_emails_belong_to_the_account demoEnv demoAddress
              (pagesOfTwo 2) cachedWorld _
              (fun _ _ rows => Permutation_refl rows) eq_refl)
    as (user & Hin & Haddr & Hrows).
  assert (Hid : user_id user = 7).
  { destruct Hin as [<-|[<-|[]]]; [reflexivity|]. vm_compute in Haddr.
    discriminate Haddr. }
  eapply List.Forall_impl; [|exact Hrows].
  intros r (_ & Hr & _). now rewrite Hr.
Defined.

(** The credential of the demo account decodes to its address and
    token. *)
Lemma credential_decodes_witness :
  base64_decode (buildXOAuth2Token demoAddress (js "at2"))
  = Some (js "user=" ++ Buffer_from demoAddress ++ [0x01]
          ++ js "auth=Bearer " ++ Buffer_from (js "at2") ++ [0x01; 0x01]).
Proof.
  apply (credential_decodes demoAddress (js "at2"));
    apply List.Forall_forall; intros c Hc; vm_compute in Hc;
    repeat (destruct Hc as [<-|Hc]; [reflexivity|]); contradiction.
Defined.
